(** * Property photo comparison and manual verification

    A shallow embedding of the two Streamlit tools of the repository:

    - [rdn_photo_comparison.py]: the similarity engine [compare_images], the
      display classifier [get_similarity_class] and the batch branch of
      [main];
    - [verification_app.py]: the folder scanner [get_image_pairs] and the
      session bookkeeping of [main].

    Numbers.  Scores are Python floats.  Every finite float is a rational, so
    a score is a [Q] here and the literals [0.8], [0.6], [0.75] and [100] of
    the source are read as the decimal fractions they are written as.

    Libraries.  The arithmetic on samples done inside OpenCV, scikit-image and
    Pillow (interpolation, colour weights, the SSIM filter, Otsu's threshold,
    contour tracing) is not part of the repository.  It is a parameter of the
    development, the class [CvPrims]; what the model fixes is what the
    repository's code depends on for its control flow: array shapes, and the
    conditions under which a library call raises. *)

From Stdlib Require Import QArith Qabs Lqa Ascii String.
From stdpp Require Import gmap strings list sorting.

Open Scope string_scope.
Open Scope list_scope.
Open Scope nat_scope.

(** ** Python exceptions and the error monad *)

Inductive exception :=
  | CvError                 (* cv2.error *)
  | ValueError
  | OSError
  | KeyError
  | IndexError
  | UnidentifiedImageError  (* PIL.UnidentifiedImageError *)
  | ZeroDivisionError.

Definition result (A : Type) : Type := exception + A.

Definition ok {A} (x : A) : result A := inr x.
Definition raise {A} (e : exception) : result A := inl e.

Global Instance result_ret : MRet result := λ A x, inr x.

Global Instance result_bind : MBind result := λ A B k m,
  match m with
  | inl e => inl e
  | inr x => k x
  end.

(** [not l] on a list *)
Definition is_nil {A} (l : list A) : bool :=
  match l with [] => true | _ => false end.

(** ** Python strings

    File names are byte strings (UTF-8).  The markers and extensions the
    code looks for are ASCII, so searching bytes and searching code points
    agree. *)

Module PyStr.

(** [c.lower()] on one byte: only [A]..[Z] change. *)
Definition lower_ascii (c : ascii) : ascii :=
  let n := nat_of_ascii c in
  if (65 <=? n)%nat && (n <=? 90)%nat then ascii_of_nat (n + 32) else c.

(** [s.lower()] *)
Fixpoint lower (s : string) : string :=
  match s with
  | "" => ""
  | String c s' => String (lower_ascii c) (lower s')
  end.

(** [s.startswith(p)] *)
Definition startswith (p s : string) : bool := String.prefix p s.

(** [s.endswith(suf)] *)
Definition endswith (suf s : string) : bool :=
  let n := String.length s in
  let k := String.length suf in
  (k <=? n)%nat && bool_decide (substring (n - k) k s = suf).

(** [s.endswith((suf1, suf2, ...))] *)
Definition endswith_any (sufs : list string) (s : string) : bool :=
  existsb (λ suf, endswith suf s) sufs.

(** [sep in s] *)
Fixpoint contains (sep s : string) : bool :=
  startswith sep s ||
  match s with
  | "" => false
  | String _ s' => contains sep s'
  end.

(** [s.split(sep)[0]] for a non-empty [sep]: the part of [s] before the
    first occurrence of [sep], all of [s] when there is none. *)
Fixpoint before_first (sep s : string) : string :=
  if startswith sep s then ""
  else match s with
       | "" => ""
       | String c s' => String c (before_first sep s')
       end.

(** [s[i:]] *)
Fixpoint drop (i : nat) (s : string) : string :=
  match i, s with
  | O, _ => s
  | S _, "" => ""
  | S i', String _ s' => drop i' s'
  end.

(** [s.rfind("/") + 1]: the index just after the last slash, [0] when
    there is none. *)
Fixpoint after_last_slash (s : string) : nat :=
  match s with
  | "" => 0
  | String c s' =>
      if contains "/" s' then S (after_last_slash s')
      else if bool_decide (c = "/"%char) then 1
      else 0
  end.

(** [os.path.basename(p)] (posixpath) *)
Definition basename (p : string) : string := drop (after_last_slash p) p.

(** [os.path.join(a, b)] (posixpath, two components) *)
Definition join (a b : string) : string :=
  if startswith "/" b then b
  else if bool_decide (a = "") || endswith "/" a then a +:+ b
  else a +:+ "/" +:+ b.

End PyStr.

(** ** The similarity engine: [rdn_photo_comparison.py] *)

Module rdn_photo_comparison.

(** [x > y] on scores *)
Definition Qgtb (x y : Q) : bool := negb (Qle_bool x y).

(** *** The display classifier *)

Definition get_similarity_class (score : Q) : string :=
  if Qgtb score (8 # 10) then "similarity-high"
  else if Qgtb score (6 # 10) then "similarity-medium"
  else "similarity-low".

(** [score > 0.75], the ['match'] entry of a batch result *)
Definition is_match (score : Q) : bool := Qgtb score (75 # 100).

(** *** Arrays and images *)

(** The [shape] of a numpy array holding an image: [(h, w)] or
    [(h, w, c)]. *)
Inductive arr_shape :=
  | Shape2 (h w : nat)
  | Shape3 (h w c : nat).

Definition ndim (s : arr_shape) : nat :=
  match s with Shape2 _ _ => 2 | Shape3 _ _ _ => 3 end.

(** [shape[0]], [shape[1]] and, for three dimensions, [shape[2]] *)
Definition shape0 (s : arr_shape) : nat :=
  match s with Shape2 h _ | Shape3 h _ _ => h end.
Definition shape1 (s : arr_shape) : nat :=
  match s with Shape2 _ w | Shape3 _ w _ => w end.
Definition shape2 (s : arr_shape) : option nat :=
  match s with Shape2 _ _ => None | Shape3 _ _ c => Some c end.

(** Channels as OpenCV counts them: a two-dimensional array has one. *)
Definition channels (s : arr_shape) : nat :=
  match s with Shape2 _ _ => 1 | Shape3 _ _ c => c end.

Definition is_empty (s : arr_shape) : bool :=
  (shape0 s =? 0)%nat || (shape1 s =? 0)%nat || (channels s =? 0)%nat.

Inductive cvt_code := COLOR_RGB2BGR | COLOR_BGR2RGB | COLOR_BGR2GRAY.

(** The sample arithmetic of the libraries. *)
Class CvPrims := {
  pixels : Type;
  contour : Type;
  (* samples of cv2.cvtColor(src, code) *)
  cvtColor_px : arr_shape → pixels → cvt_code → pixels;
  (* samples of cv2.resize(src, (width, height)) *)
  resize_px : arr_shape → pixels → nat → nat → pixels;
  (* skimage structural_similarity(a, b, full=True): mean and map *)
  ssim_score : arr_shape → pixels → pixels → Q;
  ssim_map : arr_shape → pixels → pixels → pixels;
  (* (diff * 255).astype("uint8") *)
  scale_uint8 : pixels → pixels;
  (* cv2.threshold(d, 0, 255, THRESH_BINARY_INV | THRESH_OTSU)[1] *)
  threshold_otsu_inv : arr_shape → pixels → pixels;
  (* cv2.findContours(t, RETR_EXTERNAL, CHAIN_APPROX_SIMPLE)[0] *)
  findContours : arr_shape → pixels → list contour;
  contourArea : contour → Q;
  (* x, y, w, h *)
  boundingRect : contour → Z * Z * Z * Z;
  (* cv2.rectangle(img, p1, p2, (0, 0, 255), 2) *)
  rectangle_px : arr_shape → pixels → Z * Z → Z * Z → pixels;
}.

Section Engine.
Context `{CvPrims}.

Record ndarray := { shape : arr_shape; buf : pixels }.

(** Pillow modes with 8-bit bands, as JPEG and PNG files give them. *)
Inductive pil_mode := L | P | LA | RGB | RGBA | CMYK.

Definition bands (m : pil_mode) : nat :=
  match m with
  | L | P => 1
  | LA => 2
  | RGB => 3
  | RGBA | CMYK => 4
  end.

(** What [Image.open] returns: the header is read, the samples are not
    decoded yet.  [data = None] is a file whose body cannot be decoded
    (truncated or corrupt): loading it raises [OSError]. *)
Record pil_image := {
  mode : pil_mode;
  size : nat * nat;          (* (width, height) *)
  data : option pixels;
}.

(** [np.array(im)] *)
Definition np_array (im : pil_image) : result ndarray :=
  match data im with
  | None => raise OSError
  | Some px =>
      let '(w, h) := size im in
      ok {| shape := if (bands (mode im) =? 1)%nat then Shape2 h w
                     else Shape3 h w (bands (mode im));
            buf := px |}
  end.

(** An argument of [compare_images]: the [isinstance] test of the source
    tells the two apart. *)
Inductive image :=
  | PILImage (im : pil_image)
  | Array (a : ndarray).

(** *** The OpenCV and scikit-image calls, as far as shapes go *)

(** [cv2.cvtColor(src, code)] for the three codes used: the source must
    be non-empty with 3 or 4 channels; the result has 3 channels, or is
    two-dimensional for [COLOR_BGR2GRAY]. *)
Definition cv2_cvtColor (src : ndarray) (code : cvt_code) : result ndarray :=
  let s := shape src in
  if is_empty s then raise CvError
  else if (channels s =? 3)%nat || (channels s =? 4)%nat then
    ok {| shape := match code with
                   | COLOR_BGR2GRAY => Shape2 (shape0 s) (shape1 s)
                   | _ => Shape3 (shape0 s) (shape1 s) 3
                   end;
          buf := cvtColor_px s (buf src) code |}
  else raise CvError.

(** [cv2.resize(src, (width, height))]: source and target size must be
    non-empty; the channel count is kept (one channel comes back
    two-dimensional). *)
Definition cv2_resize (src : ndarray) (dsize : nat * nat) : result ndarray :=
  let s := shape src in
  let '(width, height) := dsize in
  if is_empty s || (width =? 0)%nat || (height =? 0)%nat then raise CvError
  else
    ok {| shape := if (channels s =? 1)%nat then Shape2 height width
                   else Shape3 height width (channels s);
          buf := resize_px s (buf src) width height |}.

(** [structural_similarity(im1, im2, full=True)]: the shapes must agree
    and no axis may be shorter than the default window of 7. *)
Definition win_size : nat := 7.

Definition fits_window (s : arr_shape) : bool :=
  match s with
  | Shape2 h w => (win_size <=? h)%nat && (win_size <=? w)%nat
  | Shape3 h w c =>
      (win_size <=? h)%nat && (win_size <=? w)%nat && (win_size <=? c)%nat
  end.

Global Instance arr_shape_eq_dec : EqDecision arr_shape.
Proof. solve_decision. Defined.

Definition ssim (im1 im2 : ndarray) : result (Q * ndarray) :=
  if negb (bool_decide (shape im1 = shape im2)) then raise ValueError
  else if negb (fits_window (shape im1)) then raise ValueError
  else
    ok (ssim_score (shape im1) (buf im1) (buf im2),
        {| shape := shape im1;
           buf := ssim_map (shape im1) (buf im1) (buf im2) |}).

(** *** [compare_images] *)

(** [len(a.shape) == 3 and a.shape[2] == 3] *)
Definition is_three_channel (a : ndarray) : bool :=
  (ndim (shape a) =? 3)%nat && bool_decide (shape2 (shape a) = Some 3).

(** [image = np.array(image)] when [isinstance(image, Image.Image)] *)
Definition to_array (im : image) : result ndarray :=
  match im with
  | PILImage p => np_array p
  | Array a => ok a
  end.

(** One turn of the loop over the contours: a rectangle is drawn when
    the contour's area exceeds 100. *)
Definition draw_if_significant (image_copy : ndarray) (c : contour) : ndarray :=
  if Qgtb (contourArea c) 100 then
    let '(x, y, w, h) := boundingRect c in
    {| shape := shape image_copy;
       buf := rectangle_px (shape image_copy) (buf image_copy)
                (x, y) (x + w, y + h)%Z |}
  else image_copy.

(** The body of the [try] block. *)
Definition compare_images_try (image1 image2 : image)
  : result (Q * ndarray * ndarray * ndarray) :=
  image1 ← to_array image1 ;
  image2 ← to_array image2 ;
  image1 ← (if is_three_channel image1
             then cv2_cvtColor image1 COLOR_RGB2BGR else ok image1) ;
  image2 ← (if is_three_channel image2
             then cv2_cvtColor image2 COLOR_RGB2BGR else ok image2) ;
  let height := shape0 (shape image1) `min` shape0 (shape image2) in
  let width := shape1 (shape image1) `min` shape1 (shape image2) in
  image1 ← cv2_resize image1 (width, height) ;
  image2 ← cv2_resize image2 (width, height) ;
  gray1 ← cv2_cvtColor image1 COLOR_BGR2GRAY ;
  gray2 ← cv2_cvtColor image2 COLOR_BGR2GRAY ;
  '(score, diff) ← ssim gray1 gray2 ;
  let diff := {| shape := shape diff; buf := scale_uint8 (buf diff) |} in
  let thresh := {| shape := shape diff;
                   buf := threshold_otsu_inv (shape diff) (buf diff) |} in
  let contours := findContours (shape thresh) (buf thresh) in
  let image_copy := foldl draw_if_significant image2 contours in
  image1 ← cv2_cvtColor image1 COLOR_BGR2RGB ;
  image2 ← cv2_cvtColor image2 COLOR_BGR2RGB ;
  image_copy ← cv2_cvtColor image_copy COLOR_BGR2RGB ;
  ok (score, image1, image2, image_copy).

(** The four values [compare_images] returns; each is [None] after an
    exception. *)
Definition comparison : Type :=
  option Q * option ndarray * option ndarray * option ndarray.

Definition compare_images (image1 image2 : image) : comparison :=
  match compare_images_try image1 image2 with
  | inr (score, image1, image2, image_copy) =>
      (Some score, Some image1, Some image2, Some image_copy)
  | inl _ => (None, None, None, None)
  end.

(** *** The batch branch of [main] *)

(** An uploaded file: its name and what [Image.open] makes of its bytes,
    [None] when no decoder recognises them. *)
Record uploaded_file := {
  name : string;
  content : option pil_image;
}.

(** [Image.open(f)] *)
Definition Image_open (f : uploaded_file) : result pil_image :=
  match content f with
  | Some im => ok im
  | None => raise UnidentifiedImageError
  end.

(** One entry of [results]. *)
Record batch_result := {
  filename : string;
  score : Q;
  match_ : bool;
  diff_img : option ndarray;
}.

(** [{os.path.basename(f.name): f for f in files}]: a later file replaces
    an earlier one of the same name. *)
Definition file_dict (files : list uploaded_file) : gmap string uploaded_file :=
  foldl (λ d f, <[PyStr.basename (name f) := f]> d) ∅ files.

(** [set(ref_dict.keys()) & set(field_dict.keys())] *)
Definition common_files (ref_dict field_dict : gmap string uploaded_file)
  : gset string :=
  dom ref_dict ∩ dom field_dict.

(** [sorted(s)] on a set of strings *)
Definition sorted (s : gset string) : list string :=
  merge_sort String.le (elements s).

(** [d[k]] *)
Definition getitem (d : gmap string uploaded_file) (k : string)
  : result uploaded_file :=
  match d !! k with
  | Some f => ok f
  | None => raise KeyError
  end.

(** The body of the [for] loop.  The two [Image.open] calls are outside any
    [try]: what they raise leaves the loop. *)
Definition batch_step (ref_dict field_dict : gmap string uploaded_file)
    (results : list batch_result) (filename : string)
  : result (list batch_result) :=
  rf ← getitem ref_dict filename;
  ref_img ← Image_open rf;
  ff ← getitem field_dict filename;
  field_img ← Image_open ff;
  let '(score, _, _, diff_img) :=
    compare_images (PILImage ref_img) (PILImage field_img) in
  match score with
  | Some score =>
      ok (results ++ [ {| filename := filename;
                          score := score;
                          match_ := is_match score;
                          diff_img := diff_img |} ])
  | None => ok results
  end.

Fixpoint batch_loop (ref_dict field_dict : gmap string uploaded_file)
    (results : list batch_result) (filenames : list string)
  : result (list batch_result) :=
  match filenames with
  | [] => ok results
  | filename :: rest =>
      results ← batch_step ref_dict field_dict results filename;
      batch_loop ref_dict field_dict results rest
  end.

(** [a / b] on numbers *)
Definition py_div (a b : Q) : result Q :=
  if Qeq_bool b 0 then raise ZeroDivisionError else ok (a / b)%Q.

(** The figures of the summary. *)
Record summary := {
  total : nat;
  matched : nat;
  percentage : Q;
  non_matching : nat;
}.

Definition summary_statistics (results : list batch_result) : result summary :=
  let matched := length (List.filter match_ results) in
  let total := length results in
  ratio ← py_div (inject_Z (Z.of_nat matched)) (inject_Z (Z.of_nat total));
  ok {| total := total;
        matched := matched;
        percentage := (ratio * 100)%Q;
        non_matching := total - matched |}.

(** What a press of "Process Batch Comparison" ends in. *)
Inductive batch_outcome :=
  | NothingUploaded                      (* a list of uploads is empty *)
  | NoMatchingFilenames                  (* st.error *)
  | Uncaught (e : exception)             (* the script run stops *)
  | BatchCompleted (results : list batch_result) (s : summary).

Definition batch_comparison (ref_files field_files : list uploaded_file)
  : batch_outcome :=
  if is_nil ref_files || is_nil field_files then NothingUploaded
  else
    let ref_dict := file_dict ref_files in
    let field_dict := file_dict field_files in
    let common := common_files ref_dict field_dict in
    if bool_decide (common = ∅) then NoMatchingFilenames
    else
      match batch_loop ref_dict field_dict [] (sorted common) with
      | inl e => Uncaught e
      | inr results =>
          match summary_statistics results with
          | inl e => Uncaught e
          | inr s => BatchCompleted results s
          end
      end.

End Engine.

End rdn_photo_comparison.

(** ** The manual verification tool: [verification_app.py] *)

Module verification_app.

(** *** [get_image_pairs] *)

(** [image_pairs] is a dict from identifier to a dict with the keys
    ["original"] and ["proof"].  Python dicts keep insertion order and the
    order decides the order of the pairs, so the outer dict is an
    association list with unique keys; the inner one is a finite map. *)
Definition pairs_dict : Type := list (string * gmap string string).

(** [d.setdefault(base_id, {})[key] = file] *)
Fixpoint setdefault_set (d : pairs_dict) (base_id key file : string)
  : pairs_dict :=
  match d with
  | [] => [(base_id, <[key := file]> ∅)]
  | (k, entry) :: d' =>
      if bool_decide (k = base_id) then (k, <[key := file]> entry) :: d'
      else (k, entry) :: setdefault_set d' base_id key file
  end.

Definition extensions : list string := [".png"; ".jpg"; ".jpeg"].

(** The body of the loop over the files of the folder. *)
Definition scan_file (image_pairs : pairs_dict) (file : string) : pairs_dict :=
  if PyStr.endswith_any extensions (PyStr.lower file) then
    if PyStr.contains "_original" file then
      setdefault_set image_pairs (PyStr.before_first "_original" file)
        "original" file
    else if PyStr.contains "_proof" file then
      setdefault_set image_pairs (PyStr.before_first "_proof" file)
        "proof" file
    else image_pairs
  else image_pairs.

(** One entry of [valid_pairs]. *)
Record image_pair := {
  id : string;
  original : string;
  proof : string;
}.

(** The loop that keeps the identifiers with both images. *)
Fixpoint valid_pairs (folder_path : string) (d : pairs_dict) : list image_pair :=
  match d with
  | [] => []
  | (base_id, entry) :: d' =>
      match entry !! "original", entry !! "proof" with
      | Some o, Some p =>
          {| id := base_id;
             original := PyStr.join folder_path o;
             proof := PyStr.join folder_path p |}
          :: valid_pairs folder_path d'
      | _, _ => valid_pairs folder_path d'
      end
  end.

(** The directory tree as the tool sees it: [os.listdir] and
    [os.path.exists]. *)
Record file_system := {
  listdir : string → result (list string);
  path_exists : string → bool;
}.

Definition get_image_pairs (fs : file_system) (folder_path : string)
  : list image_pair :=
  match listdir fs folder_path with
  | inr files => valid_pairs folder_path (foldl scan_file [] files)
  | inl _ => []
  end.

(** *** The session of [main] *)

Record decision_record := {
  property_id : string;
  decision : string;
  timestamp : string;
}.

(** [st.session_state.verification_data] *)
Record verification_data := {
  current_pair : nat;
  decisions : list decision_record;
  image_pairs : list image_pair;
  verification_complete : bool;
  folder_path : option string;
}.

Definition initial_data : verification_data :=
  {| current_pair := 0;
     decisions := [];
     image_pairs := [];
     verification_complete := false;
     folder_path := None |}.

(** The three decision buttons; a script run sees at most one pressed. *)
Inductive button := ButtonYes | ButtonNo | ButtonUndecided.

Definition decision_label (b : button) : string :=
  match b with
  | ButtonYes => "Yes"
  | ButtonNo => "No"
  | ButtonUndecided => "No Decision"
  end.

(** What one run of the script leaves on the page. *)
Inductive view :=
  | ViewIdle                              (* only the folder input *)
  | ViewFolderMissing                     (* st.error, return *)
  | ViewNoValidPairs                      (* st.error, return *)
  | ViewPair (p : image_pair) (position total_pairs : nat)
  | ViewAllVerified (log : list decision_record).

(** How a run ends: it reaches the end of [main] (or a [return]), or
    [st.rerun()] stops it and starts the script again, or an exception no
    handler catches stops it. *)
Inductive run_end := Finished | Rerun | Crashed (e : exception).

(** The body of a pressed decision button. *)
Definition record_decision (vd : verification_data) (current_data : image_pair)
    (b : button) (now : string) : verification_data :=
  {| current_pair := current_pair vd + 1;
     decisions := decisions vd ++
       [ {| property_id := id current_data;
            decision := decision_label b;
            timestamp := now |} ];
     image_pairs := image_pairs vd;
     verification_complete := verification_complete vd;
     folder_path := folder_path vd |}.

Definition set_complete (vd : verification_data) : verification_data :=
  {| current_pair := current_pair vd;
     decisions := decisions vd;
     image_pairs := image_pairs vd;
     verification_complete := true;
     folder_path := folder_path vd |}.

(** Truth value of a Python string *)
Definition truthy (s : string) : bool := negb (bool_decide (s = "")).

(** The last block of [main]: the completion message. *)
Definition completion_view (vd : verification_data) : view :=
  if verification_complete vd then ViewAllVerified (decisions vd) else ViewIdle.

(** One run of the script.  [session_state] is [None] before the first run;
    [folder_path_input] is the content of the text input, [clicked] the
    button pressed to start this run, [now] the clock. *)
Definition main (fs : file_system) (session_state : option verification_data)
    (folder_path_input : string) (clicked : option button) (now : string)
  : verification_data * view * run_end :=
  let vd := default initial_data session_state in
  let vd :=
    if truthy folder_path_input
       && negb (bool_decide (Some folder_path_input = folder_path vd))
    then {| current_pair := 0;
            decisions := [];
            image_pairs := get_image_pairs fs folder_path_input;
            verification_complete := false;
            folder_path := Some folder_path_input |}
    else vd in
  if truthy folder_path_input then
    if negb (path_exists fs folder_path_input) then
      (vd, ViewFolderMissing, Finished)
    else if is_nil (image_pairs vd) then
      (vd, ViewNoValidPairs, Finished)
    else
      let total_pairs := length (image_pairs vd) in
      if (total_pairs <=? current_pair vd)%nat then
        let vd := set_complete vd in
        (vd, completion_view vd, Finished)
      else
        match image_pairs vd !! current_pair vd with
        | None => (vd, ViewIdle, Crashed IndexError)
        | Some current_data =>
            let shown := ViewPair current_data (current_pair vd + 1) total_pairs in
            match clicked with
            | Some b => (record_decision vd current_data b now, shown, Rerun)
            | None => (vd, shown, Finished)
            end
        end
  else (vd, completion_view vd, Finished).

(** A user event and the runs it causes: the run it starts and, when that
    one calls [st.rerun()], the run that follows with the same text input
    and no button pressed. *)
Definition script_run (fs : file_system) (session_state : option verification_data)
    (folder_path_input : string) (clicked : option button) (now : string)
  : verification_data * view * run_end :=
  match main fs session_state folder_path_input clicked now with
  | (vd, _, Rerun) => main fs (Some vd) folder_path_input None now
  | r => r
  end.

End verification_app.

(** ** Closed forms used in the proofs *)

Module EngineForms.
Import rdn_photo_comparison.

Section Forms.
Context `{CvPrims}.

(** The arrays [cv2.cvtColor] accepts: non-empty, 3 or 4 channels. *)
Definition supported (s : arr_shape) : bool :=
  negb (is_empty s) && ((channels s =? 3)%nat || (channels s =? 4)%nat).

(** The value of [cv2.cvtColor(a, code)] when the call returns. *)
Definition cvt (a : ndarray) (code : cvt_code) : ndarray :=
  {| shape := match code with
              | COLOR_BGR2GRAY => Shape2 (shape0 (shape a)) (shape1 (shape a))
              | _ => Shape3 (shape0 (shape a)) (shape1 (shape a)) 3
              end;
     buf := cvtColor_px (shape a) (buf a) code |}.

(** The value of [cv2.resize(a, (width, height))] when the call returns. *)
Definition resized (a : ndarray) (width height : nat) : ndarray :=
  {| shape := if (channels (shape a) =? 1)%nat then Shape2 height width
              else Shape3 height width (channels (shape a));
     buf := resize_px (shape a) (buf a) width height |}.

(** Lines 38 to 41 on an array. *)
Definition to_bgr (a : ndarray) : ndarray :=
  if is_three_channel a then cvt a COLOR_RGB2BGR else a.

(** The common size: lines 44 and 45. *)
Definition common_height (a1 a2 : ndarray) : nat :=
  shape0 (shape a1) `min` shape0 (shape a2).
Definition common_width (a1 a2 : ndarray) : nat :=
  shape1 (shape a1) `min` shape1 (shape a2).

(** The grayscale array the metric sees for [a], at the common size. *)
Definition gray_at (a : ndarray) (width height : nat) : ndarray :=
  cvt (resized (to_bgr a) width height) COLOR_BGR2GRAY.

(** When [compare_images] gets through: both arrays are supported and the
    common size holds the window of the metric. *)
Definition engine_ok (a1 a2 : ndarray) : bool :=
  supported (shape a1) && supported (shape a2)
  && (win_size <=? common_height a1 a2)%nat
  && (win_size <=? common_width a1 a2)%nat.

(** And what it returns then. *)
Definition engine_value (a1 a2 : ndarray) : Q * ndarray * ndarray * ndarray :=
  let height := common_height a1 a2 in
  let width := common_width a1 a2 in
  let image1 := resized (to_bgr a1) width height in
  let image2 := resized (to_bgr a2) width height in
  let gray1 := cvt image1 COLOR_BGR2GRAY in
  let gray2 := cvt image2 COLOR_BGR2GRAY in
  let score := ssim_score (shape gray1) (buf gray1) (buf gray2) in
  let diff := scale_uint8 (ssim_map (shape gray1) (buf gray1) (buf gray2)) in
  let thresh := threshold_otsu_inv (shape gray1) diff in
  let contours := findContours (shape gray1) thresh in
  (score,
   cvt image1 COLOR_BGR2RGB,
   cvt image2 COLOR_BGR2RGB,
   cvt (foldl draw_if_significant image2 contours) COLOR_BGR2RGB).

(** Two optional scores agree within [eps]: both absent, or both present
    and no further apart than [eps]. *)
Definition scores_within (eps : Q) (s1 s2 : option Q) : Prop :=
  match s1, s2 with
  | Some x, Some y => (Qabs (x - y) <= eps)%Q
  | None, None => True
  | _, _ => False
  end.

Definition score_of (c : comparison) : option Q := c.1.1.1.

(** The comparison of the two files named [n] returns a score: both files
    are there, [Image.open] accepts both and [compare_images] gets
    through. *)
Definition comparison_succeeds (ref_dict field_dict : gmap string uploaded_file)
    (n : string) : Prop :=
  ∃ rf ff ref_img field_img,
    ref_dict !! n = Some rf ∧ field_dict !! n = Some ff
    ∧ content rf = Some ref_img ∧ content ff = Some field_img
    ∧ is_Some (score_of (compare_images (PILImage ref_img) (PILImage field_img))).

(** The names under which the files of an upload are filed. *)
Definition basenames (files : list uploaded_file) : list string :=
  (λ f, PyStr.basename (name f)) <$> files.

(** The figures the summary shows for a non-empty list of results. *)
Definition summary_of (results : list batch_result) : summary :=
  let m := length (List.filter match_ results) in
  let t := length results in
  {| total := t;
     matched := m;
     percentage := (inject_Z (Z.of_nat m) / inject_Z (Z.of_nat t) * 100)%Q;
     non_matching := t - m |}.

End Forms.
End EngineForms.

(** A stand-in for the library arithmetic on flat lists of samples, to run
    the model on concrete inputs.  Its metric is the crudest symmetric one:
    1 on equal buffers, 0 otherwise. *)
Module FlatPrims.
Import rdn_photo_comparison.

Definition flat_ssim_score (a b : list Z) : Q :=
  if bool_decide (a = b) then 1%Q else 0%Q.

Definition flat_ssim_map (a b : list Z) : list Z :=
  zip_with (λ x y, if bool_decide (x = y) then 1%Z else 0%Z) a b.

Definition flat_box (c : list (Z * Z)) : Z * Z * Z * Z :=
  let xs := c.*1 in
  let ys := c.*2 in
  let x0 := foldr Z.min (default 0%Z (head xs)) xs in
  let y0 := foldr Z.min (default 0%Z (head ys)) ys in
  let x1 := foldr Z.max x0 xs in
  let y1 := foldr Z.max y0 ys in
  (x0, y0, x1 - x0 + 1, y1 - y0 + 1)%Z.

#[export] Instance flat_prims : CvPrims := {|
  pixels := list Z;
  contour := list (Z * Z);
  cvtColor_px := λ _ px _, px;
  resize_px := λ _ px _ _, px;
  ssim_score := λ _ a b, flat_ssim_score a b;
  ssim_map := λ _ a b, flat_ssim_map a b;
  scale_uint8 := fmap (Z.mul 255);
  threshold_otsu_inv := λ _ px, (λ v, if (0 <? v)%Z then 0%Z else 255%Z) <$> px;
  findContours := λ _ _, [];
  contourArea := λ _, 0%Q;
  boundingRect := flat_box;
  rectangle_px := λ _ px _ _, px;
|}.

(** Sample images over the stand-in. *)
Definition sample_image (m : pil_mode) (width height : nat) (px : list Z)
  : image (H := flat_prims) :=
  PILImage (H := flat_prims)
    {| mode := m; size := (width, height); data := Some (px : pixels) |}.

Definition rgb_8x9 : image := sample_image RGB 8 9 [1; 2; 3]%Z.
Definition rgba_12x7 : image := sample_image RGBA 12 7 [4; 5]%Z.
Definition gray_10x10 : image := sample_image L 10 10 [6]%Z.

(** Sample uploads: a photo that decodes, and a file whose header is fine
    and whose body is cut short. *)
Definition good_photo : pil_image :=
  {| mode := RGB; size := (8, 9); data := Some ([1; 2; 3]%Z : pixels) |}.
Definition truncated_photo : pil_image :=
  {| mode := RGB; size := (8, 9); data := None |}.

Definition upload (n : string) (im : pil_image) : uploaded_file :=
  {| name := n; content := Some im |}.

Definition reference_abc : list uploaded_file :=
  [upload "A" good_photo; upload "B" good_photo; upload "C" good_photo].
Definition field_bcd : list uploaded_file :=
  [upload "B" good_photo; upload "C" good_photo; upload "D" good_photo].

Definition reference_ab : list uploaded_file :=
  [upload "A" good_photo; upload "B" truncated_photo].
Definition field_ab : list uploaded_file :=
  [upload "A" good_photo; upload "B" good_photo].

(** What the batch run on [reference_ab] and [field_ab] collects. *)
Definition results_ab : list batch_result :=
  [ {| filename := "A"; score := 1; match_ := true;
       diff_img := Some {| shape := Shape3 9 8 3;
                           buf := ([1; 2; 3]%Z : pixels) |} |} ].

End FlatPrims.

(** The claims about the verification tool, in its own terms. *)
Module VerificationForms.
Import verification_app.

(** The role of a file and the identifier it is filed under, as the
    description of [get_image_pairs] has it: an image file with the marker
    ["_original"] is an original, one without it and with ["_proof"] is a
    proof, the identifier is what precedes the first marker; any other file
    has no role. *)
Definition role_of (file : string) : option (string * string) :=
  if PyStr.endswith_any extensions (PyStr.lower file) then
    if PyStr.contains "_original" file then
      Some ("original", PyStr.before_first "_original" file)
    else if PyStr.contains "_proof" file then
      Some ("proof", PyStr.before_first "_proof" file)
    else None
  else None.

(** The state a run leaves behind. *)
Definition state_after (r : verification_data * view * run_end)
  : verification_data := r.1.1.

(** A press of a decision button: the button and the time of the press. *)
Definition press : Type := button * string.

(** The session after a series of presses, the folder input unchanged. *)
Definition run_presses (fs : file_system) (folder : string)
    (vd : verification_data) (presses : list press) : verification_data :=
  foldl (λ vd '(b, now), state_after (script_run fs (Some vd) folder (Some b) now))
        vd presses.

(** The record a press on pair [p] leaves in the log. *)
Definition record_of (p : image_pair) (e : press) : decision_record :=
  {| property_id := id p;
     decision := decision_label e.1;
     timestamp := e.2 |}.

(** The session states the script can be in: the state of a fresh session,
    and any state a run leaves, whatever the directory tree, the text input
    and the button of that run. *)
Inductive reachable : verification_data → Prop :=
  | reachable_initial : reachable initial_data
  | reachable_run fs vd folder_path_input clicked now :
      reachable vd →
      reachable (state_after
                   (script_run fs (Some vd) folder_path_input clicked now)).

(** The three states of the session as the description of the controller
    names them: no folder chosen, cursor before the number of pairs, cursor
    at or past it. *)
Inductive session_state := AwaitingInput | Reviewing | Complete.

Definition state_of (vd : verification_data) : session_state :=
  match folder_path vd with
  | None => AwaitingInput
  | Some _ =>
      if (current_pair vd <? length (image_pairs vd))%nat then Reviewing
      else Complete
  end.

(** What holds of the session in every state: the cursor is within the
    list of pairs, the log has one record per pair passed, and the
    completion flag is only set with a folder chosen, at the end of a
    non-empty list. *)
Definition session_inv (vd : verification_data) : Prop :=
  current_pair vd ≤ length (image_pairs vd)
  ∧ length (decisions vd) = current_pair vd
  ∧ (verification_complete vd = true →
     current_pair vd = length (image_pairs vd) ∧ image_pairs vd ≠ []
     ∧ is_Some (folder_path vd)).

(** A folder for the examples. *)
Definition sample_files : list string :=
  ["12_original.jpg"; "notes.txt"; "7_proof_original.jpg"; "12_proof.PNG";
   "7_proof.jpeg"; "9_original.gif"; "30_proof.png"; "30_original.png"].

Definition sample_fs : file_system :=
  {| listdir := λ path, if bool_decide (path = "photos") then ok sample_files
                        else raise OSError;
     path_exists := λ path, bool_decide (path = "photos") |}.

End VerificationForms.

(** Further code of the two files and the terms its properties are
    stated in. *)
Module MoreForms.
Import rdn_photo_comparison verification_app EngineForms.

Section Engine.
Context `{CvPrims}.

(** The contours [compare_images] finds for two arrays it accepts (lines 55
    to 62). *)
Definition found_contours (a1 a2 : ndarray) : list contour :=
  let height := common_height a1 a2 in
  let width := common_width a1 a2 in
  let gray1 := gray_at a1 width height in
  let gray2 := gray_at a2 width height in
  let diff := scale_uint8 (ssim_map (shape gray1) (buf gray1) (buf gray2)) in
  findContours (shape gray1) (threshold_otsu_inv (shape gray1) diff).

(** The test of line 67. *)
Definition significant (c : contour) : bool := Qgtb (contourArea c) 100.

(** One entry of the detailed results (lines 236 to 244): the file name, the
    CSS class of the score and whether the check mark is shown. *)
Definition detail_row (r : batch_result) : string * string * bool :=
  (filename r, get_similarity_class (score r), match_ r).

Definition detailed_results (results : list batch_result)
  : list (string * string * bool) :=
  detail_row <$> results.

(** A batch result that is what the comparison of the two files of its
    name returns, with the match flag of its score. *)
Definition genuine (ref_dict field_dict : gmap string uploaded_file)
    (r : batch_result) : Prop :=
  ∃ rf ff ref_img field_img o1 o2,
    ref_dict !! filename r = Some rf ∧ field_dict !! filename r = Some ff
    ∧ content rf = Some ref_img ∧ content ff = Some field_img
    ∧ compare_images (PILImage ref_img) (PILImage field_img)
      = (Some (score r), o1, o2, diff_img r)
    ∧ match_ r = is_match (score r).


End Engine.

(** An array over the stand-in arithmetic. *)
Definition flat_array (s : arr_shape) (px : list Z)
  : ndarray (H := FlatPrims.flat_prims) :=
  @Build_ndarray FlatPrims.flat_prims s px.

(** The three CSS classes, in the order of the scores they stand for. *)
Definition label_rank (label : string) : nat :=
  if bool_decide (label = "similarity-high") then 2
  else if bool_decide (label = "similarity-medium") then 1
  else 0.


(** The labels a record can carry. *)
Definition decision_labels : list string := ["Yes"; "No"; "No Decision"].

(** What the log holds in every state: the identifiers of the pairs before
    the cursor, in their order, each with one of the three labels. *)
Definition log_inv (vd : verification_data) : Prop :=
  property_id <$> decisions vd = id <$> take (current_pair vd) (image_pairs vd)
  ∧ Forall (λ r, decision r ∈ decision_labels) (decisions vd).

(** A folder with two original files for one identifier. *)
Definition twice_fs : file_system :=
  {| listdir := λ _, ok ["5_original_a.jpg"; "5_proof.png"; "5_original_b.jpg"];
     path_exists := λ _, true |}.

End MoreForms.

(** * Theorems *)

(** ** The error monad *)

Lemma result_bind_inr {A B} (m : result A) (k : A → result B) (y : B) :
  m ≫= k = inr y ↔ ∃ x, m = inr x ∧ k x = inr y.
Proof.
  destruct m as [e|x]; simpl; split.
  - discriminate.
  - intros (x & Hx & _). discriminate.
  - eauto.
  - intros (x' & [= <-] & Hk). exact Hk.
Qed.

Lemma result_bind_ok {A B} (x : A) (k : A → result B) : ok x ≫= k = k x.
Proof. reflexivity. Qed.

(** ** The similarity engine *)

Module EngineFacts.
Import rdn_photo_comparison EngineForms.

Section Facts.
Context `{CvPrims}.

Lemma cv2_cvtColor_supported (a : ndarray) (code : cvt_code) :
  supported (shape a) = true → cv2_cvtColor a code = ok (cvt a code).
Proof.
  unfold supported, cv2_cvtColor, cvt. intros [He Hc]%andb_prop.
  apply negb_true_iff in He. rewrite He, Hc. by destruct code.
Qed.

Lemma cv2_cvtColor_unsupported (a : ndarray) (code : cvt_code) :
  supported (shape a) = false → cv2_cvtColor a code = raise CvError.
Proof.
  unfold supported, cv2_cvtColor. intros Hs.
  destruct (is_empty (shape a)); [done|]. simpl in Hs. by rewrite Hs.
Qed.

Lemma cv2_cvtColor_inr (a b : ndarray) (code : cvt_code) :
  cv2_cvtColor a code = inr b → supported (shape a) = true ∧ b = cvt a code.
Proof.
  destruct (supported (shape a)) eqn:Hs.
  - rewrite cv2_cvtColor_supported by done. by intros [= <-].
  - by rewrite cv2_cvtColor_unsupported.
Qed.

Lemma cv2_resize_ok (a : ndarray) (width height : nat) :
  is_empty (shape a) = false → width ≠ 0 → height ≠ 0 →
  cv2_resize a (width, height) = ok (resized a width height).
Proof.
  intros He Hw Hh. unfold cv2_resize. rewrite He.
  destruct width, height; done.
Qed.

Lemma cv2_resize_inr (a b : ndarray) (width height : nat) :
  cv2_resize a (width, height) = inr b →
  is_empty (shape a) = false ∧ width ≠ 0 ∧ height ≠ 0
  ∧ b = resized a width height.
Proof.
  unfold cv2_resize. destruct (is_empty (shape a)); [done|].
  destruct width, height; try done. by intros [= <-].
Qed.

Lemma ssim_inr (g1 g2 : ndarray) (score : Q) (diff : ndarray) :
  ssim g1 g2 = inr (score, diff) ↔
  shape g1 = shape g2 ∧ fits_window (shape g1) = true
  ∧ score = ssim_score (shape g1) (buf g1) (buf g2)
  ∧ diff = {| shape := shape g1;
              buf := ssim_map (shape g1) (buf g1) (buf g2) |}.
Proof.
  unfold ssim. case_bool_decide as Hs; simpl.
  - destruct (fits_window (shape g1)); simpl.
    + split; [by intros [= <- <-]|]. by intros (_ & _ & -> & ->).
    + split; [done|]. by intros (_ & ? & _).
  - split; [done|]. by intros (? & _).
Qed.

(** Shapes through the closed forms. *)

Lemma channels_to_bgr (a : ndarray) :
  channels (shape (to_bgr a)) = channels (shape a).
Proof.
  unfold to_bgr, is_three_channel.
  destruct a as [[h w|h w c] px]; simpl; [done|].
  case_bool_decide as Hc; [|done]. by injection Hc as ->.
Qed.

Lemma shape0_to_bgr (a : ndarray) :
  shape0 (shape (to_bgr a)) = shape0 (shape a).
Proof. unfold to_bgr. by destruct (is_three_channel a). Qed.

Lemma shape1_to_bgr (a : ndarray) :
  shape1 (shape (to_bgr a)) = shape1 (shape a).
Proof. unfold to_bgr. by destruct (is_three_channel a). Qed.

Lemma is_empty_to_bgr (a : ndarray) :
  is_empty (shape (to_bgr a)) = is_empty (shape a).
Proof.
  unfold is_empty. by rewrite channels_to_bgr, shape0_to_bgr, shape1_to_bgr.
Qed.

Lemma supported_to_bgr (a : ndarray) :
  supported (shape (to_bgr a)) = supported (shape a).
Proof. unfold supported. by rewrite is_empty_to_bgr, channels_to_bgr. Qed.

Lemma channels_resized (a : ndarray) (width height : nat) :
  channels (shape (resized a width height)) = channels (shape a).
Proof.
  unfold resized; simpl.
  destruct (channels (shape a) =? 1)%nat eqn:Hc; [|done].
  by apply Nat.eqb_eq in Hc.
Qed.

Lemma shape0_resized (a : ndarray) (width height : nat) :
  shape0 (shape (resized a width height)) = height.
Proof. unfold resized; simpl. by destruct (_ =? 1)%nat. Qed.

Lemma shape1_resized (a : ndarray) (width height : nat) :
  shape1 (shape (resized a width height)) = width.
Proof. unfold resized; simpl. by destruct (_ =? 1)%nat. Qed.

Lemma supported_resized (a : ndarray) (width height : nat) :
  is_empty (shape a) = false → width ≠ 0 → height ≠ 0 →
  supported (shape (resized a width height)) = supported (shape a).
Proof.
  intros He Hw Hh. unfold supported. rewrite He, channels_resized.
  f_equal. unfold is_empty.
  rewrite channels_resized, shape0_resized, shape1_resized.
  unfold is_empty in He.
  apply orb_false_elim in He as [_ ->].
  destruct width, height; done.
Qed.

Lemma supported_not_empty (s : arr_shape) :
  supported s = true → is_empty s = false.
Proof. unfold supported. by intros [->%negb_true_iff _]%andb_prop. Qed.

Lemma shape_gray_at (a : ndarray) (width height : nat) :
  shape (gray_at a width height) = Shape2 height width.
Proof.
  unfold gray_at, cvt. cbn [shape]. by rewrite shape0_resized, shape1_resized.
Qed.

(** The rectangles do not change the shape of the annotated copy. *)
Lemma shape_draw_contours (img : ndarray) (cs : list contour) :
  shape (foldl draw_if_significant img cs) = shape img.
Proof.
  revert img. induction cs as [|c cs IH]; intros img; simpl; [done|].
  rewrite IH. unfold draw_if_significant.
  destruct (Qgtb _ _); [|done]. by destruct (boundingRect c) as [[[??]?]?].
Qed.

(** Lines 38 to 41 either fail or give [to_bgr]. *)
Lemma bgr_step_inr (a b : ndarray) :
  (if is_three_channel a then cv2_cvtColor a COLOR_RGB2BGR else ok a) = inr b →
  b = to_bgr a.
Proof.
  unfold to_bgr. destruct (is_three_channel a).
  - by intros [_ ->]%cv2_cvtColor_inr.
  - by intros [= <-].
Qed.

Lemma bgr_step_ok (a : ndarray) :
  supported (shape a) = true →
  (if is_three_channel a then cv2_cvtColor a COLOR_RGB2BGR else ok a)
  = ok (to_bgr a).
Proof.
  intros Hs. unfold to_bgr. destruct (is_three_channel a); [|done].
  by apply cv2_cvtColor_supported.
Qed.

Lemma engine_ok_elim (a1 a2 : ndarray) :
  engine_ok a1 a2 = true →
  supported (shape a1) = true ∧ supported (shape a2) = true
  ∧ win_size ≤ common_height a1 a2 ∧ win_size ≤ common_width a1 a2.
Proof.
  unfold engine_ok.
  intros [[[??]%andb_prop ?%Nat.leb_le]%andb_prop ?%Nat.leb_le]%andb_prop.
  done.
Qed.

Lemma engine_ok_intro (a1 a2 : ndarray) :
  supported (shape a1) = true → supported (shape a2) = true →
  win_size ≤ common_height a1 a2 → win_size ≤ common_width a1 a2 →
  engine_ok a1 a2 = true.
Proof.
  unfold engine_ok. intros -> -> ?%Nat.leb_le ?%Nat.leb_le.
  by repeat (apply andb_true_intro; split).
Qed.

(** [compare_images] on arrays the engine accepts. *)
Lemma compare_images_try_ok (a1 a2 : ndarray) :
  engine_ok a1 a2 = true →
  compare_images_try (Array a1) (Array a2) = ok (engine_value a1 a2).
Proof.
  intros (Hs1 & Hs2 & Hh & Hw)%engine_ok_elim.
  unfold win_size, common_height, common_width in Hh, Hw.
  pose proof (supported_not_empty _ Hs1) as He1.
  pose proof (supported_not_empty _ Hs2) as He2.
  unfold compare_images_try, to_array.
  rewrite !result_bind_ok.
  rewrite (bgr_step_ok a1 Hs1), result_bind_ok.
  rewrite (bgr_step_ok a2 Hs2), result_bind_ok.
  rewrite !shape0_to_bgr, !shape1_to_bgr.
  set (height := shape0 (shape a1) `min` shape0 (shape a2)) in *.
  set (width := shape1 (shape a1) `min` shape1 (shape a2)) in *.
  assert (width ≠ 0) by lia. assert (height ≠ 0) by lia.
  rewrite (cv2_resize_ok (to_bgr a1)), result_bind_ok
    by (by rewrite ?is_empty_to_bgr).
  rewrite (cv2_resize_ok (to_bgr a2)), result_bind_ok
    by (by rewrite ?is_empty_to_bgr).
  assert (Hr1 : supported (shape (resized (to_bgr a1) width height)) = true).
  { rewrite supported_resized, supported_to_bgr; rewrite ?is_empty_to_bgr; done. }
  assert (Hr2 : supported (shape (resized (to_bgr a2) width height)) = true).
  { rewrite supported_resized, supported_to_bgr; rewrite ?is_empty_to_bgr; done. }
  rewrite !(cv2_cvtColor_supported _ COLOR_BGR2GRAY), !result_bind_ok by done.
  fold (gray_at a1 width height). fold (gray_at a2 width height).
  unfold ssim. rewrite !shape_gray_at.
  rewrite bool_decide_eq_true_2 by done. cbn [negb fits_window].
  unfold win_size.
  destruct (Nat.leb_spec 7 height); [|lia].
  destruct (Nat.leb_spec 7 width); [|lia].
  cbn [andb negb]. rewrite result_bind_ok. cbn [shape buf].
  rewrite !(cv2_cvtColor_supported _ COLOR_BGR2RGB), !result_bind_ok;
    rewrite ?shape_draw_contours; try done.
  unfold engine_value, common_height, common_width.
  fold height width. unfold gray_at.
  rewrite <- !shape_gray_at with (a := a1). done.
Qed.

(** And only on those. *)
Lemma compare_images_try_inr (a1 a2 : ndarray) r :
  compare_images_try (Array a1) (Array a2) = inr r → engine_ok a1 a2 = true.
Proof.
  unfold compare_images_try, to_array. rewrite !result_bind_ok.
  intros (b1 & Hb1 & Hrun)%result_bind_inr.
  apply result_bind_inr in Hrun as (b2 & Hb2 & Hrun).
  apply result_bind_inr in Hrun as (r1 & Hr1 & Hrun).
  apply result_bind_inr in Hrun as (r2 & Hr2 & Hrun).
  apply result_bind_inr in Hrun as (g1 & Hg1 & Hrun).
  apply result_bind_inr in Hrun as (g2 & Hg2 & Hrun).
  apply result_bind_inr in Hrun as ([score diff] & Hssim & _).
  apply bgr_step_inr in Hb1 as ->. apply bgr_step_inr in Hb2 as ->.
  rewrite !shape0_to_bgr, !shape1_to_bgr in Hr1, Hr2.
  apply cv2_resize_inr in Hr1 as (He1 & Hw & Hh & ->).
  apply cv2_resize_inr in Hr2 as (He2 & _ & _ & ->).
  apply cv2_cvtColor_inr in Hg1 as [Hs1 ->].
  apply cv2_cvtColor_inr in Hg2 as [Hs2 ->].
  rewrite supported_resized, supported_to_bgr in Hs1, Hs2 by done.
  apply ssim_inr in Hssim as (_ & Hfit & _).
  cbn [cvt shape fits_window] in Hfit.
  rewrite shape0_resized, shape1_resized in Hfit.
  apply andb_prop in Hfit as [?%Nat.leb_le ?%Nat.leb_le].
  by apply engine_ok_intro.
Qed.

(** The two directions for any two arguments. *)
Lemma compare_images_try_spec (image1 image2 : image) r :
  compare_images_try image1 image2 = inr r ↔
  ∃ a1 a2, to_array image1 = inr a1 ∧ to_array image2 = inr a2
           ∧ engine_ok a1 a2 = true ∧ r = engine_value a1 a2.
Proof.
  split.
  - intros Hrun.
    assert (∃ a1, to_array image1 = inr a1) as [a1 Ha1].
    { unfold compare_images_try in Hrun.
      apply result_bind_inr in Hrun as (a1 & ? & _). eauto. }
    assert (∃ a2, to_array image2 = inr a2) as [a2 Ha2].
    { unfold compare_images_try in Hrun.
      apply result_bind_inr in Hrun as (? & _ & Hrun).
      apply result_bind_inr in Hrun as (a2 & ? & _). eauto. }
    assert (Harr : compare_images_try image1 image2
                   = compare_images_try (Array a1) (Array a2)).
    { unfold compare_images_try. by rewrite Ha1, Ha2. }
    rewrite Harr in Hrun. exists a1, a2.
    pose proof (compare_images_try_inr _ _ _ Hrun) as Hok.
    rewrite (compare_images_try_ok _ _ Hok) in Hrun.
    by injection Hrun as <-.
  - intros (a1 & a2 & Ha1 & Ha2 & Hok & ->).
    unfold compare_images_try. rewrite Ha1, Ha2.
    exact (compare_images_try_ok _ _ Hok).
Qed.

(** [compare_images] in one equation. *)
Lemma compare_images_eq (image1 image2 : image) :
  compare_images image1 image2 =
  match to_array image1, to_array image2 with
  | inr a1, inr a2 =>
      if engine_ok a1 a2 then
        let '(score, image1, image2, image_copy) := engine_value a1 a2 in
        (Some score, Some image1, Some image2, Some image_copy)
      else (None, None, None, None)
  | _, _ => (None, None, None, None)
  end.
Proof.
  unfold compare_images.
  destruct (compare_images_try image1 image2) as [e|r] eqn:Hrun.
  - destruct (to_array image1) as [|a1] eqn:Ha1; [done|].
    destruct (to_array image2) as [|a2] eqn:Ha2; [done|].
    destruct (engine_ok a1 a2) eqn:Hok; [|done].
    assert (compare_images_try image1 image2 = inr (engine_value a1 a2)) as Hr.
    { apply compare_images_try_spec. by exists a1, a2. }
    congruence.
  - apply compare_images_try_spec in Hrun as (a1 & a2 & -> & -> & -> & ->).
    by destruct (engine_value a1 a2) as [[[??]?]?].
Qed.

(** An array [cv2.cvtColor] rejects on either side makes the comparison
    fail. *)
Lemma compare_images_unsupported (image1 image2 : image) (a1 a2 : ndarray) :
  to_array image1 = inr a1 → to_array image2 = inr a2 →
  supported (shape a1) && supported (shape a2) = false →
  compare_images image1 image2 = (None, None, None, None).
Proof.
  intros Ha1 Ha2 Hs. rewrite compare_images_eq, Ha1, Ha2.
  unfold engine_ok. by rewrite Hs.
Qed.

(** When the comparison returns a score, the three images it returns have
    three channels and the common size of the two arguments. *)
Lemma compare_images_output_shape (image1 image2 : image) (a1 a2 : ndarray)
    score out1 out2 out3 :
  to_array image1 = inr a1 → to_array image2 = inr a2 →
  compare_images image1 image2 = (Some score, out1, out2, out3) →
  ∃ o1 o2 o3,
    out1 = Some o1 ∧ out2 = Some o2 ∧ out3 = Some o3
    ∧ shape o1 = Shape3 (common_height a1 a2) (common_width a1 a2) 3
    ∧ shape o2 = Shape3 (common_height a1 a2) (common_width a1 a2) 3
    ∧ shape o3 = Shape3 (common_height a1 a2) (common_width a1 a2) 3.
Proof.
  intros Ha1 Ha2. rewrite compare_images_eq, Ha1, Ha2.
  destruct (engine_ok a1 a2); [|done].
  unfold engine_value. intros [= <- <- <- <-].
  eexists _, _, _. repeat split; cbn [cvt shape];
    by rewrite ?shape_draw_contours, shape0_resized, shape1_resized.
Qed.

Lemma engine_ok_sym (a1 a2 : ndarray) : engine_ok a1 a2 = engine_ok a2 a1.
Proof.
  unfold engine_ok, common_height, common_width.
  rewrite (Nat.min_comm (shape0 (shape a1))), (Nat.min_comm (shape1 (shape a1))).
  by rewrite (andb_comm (supported (shape a1))).
Qed.

End Facts.
End EngineFacts.

Module EngineClaims.
Import rdn_photo_comparison EngineForms EngineFacts.

(** C1.  Two decodable single-channel (mode [L]) images of any sizes, for any
    implementation of the library arithmetic: [compare_images] does not get
    through (the conversion to grayscale rejects an array without a channel
    axis) and returns [None] four times, so no image of the common size
    comes back. *)
Theorem compare_images_grayscale_rejected `{CvPrims}
    (w1 h1 w2 h2 : nat) (px1 px2 : pixels) :
  compare_images
    (PILImage {| mode := L; size := (w1, h1); data := Some px1 |})
    (PILImage {| mode := L; size := (w2, h2); data := Some px2 |})
  = (None, None, None, None).
Proof.
  eapply compare_images_unsupported; [reflexivity..|].
  unfold supported; simpl. by rewrite andb_false_r.
Qed.

(** C2.  A decodable single-channel image compared with itself, for any
    implementation of the library arithmetic: no score is returned, so not
    the score 1.0. *)
Theorem compare_images_identical_grayscale_no_score `{CvPrims}
    (w h : nat) (px : pixels) :
  let i := PILImage {| mode := L; size := (w, h); data := Some px |} in
  score_of (compare_images i i) = None.
Proof.
  intros i. unfold i.
  erewrite compare_images_unsupported; [reflexivity..|].
  unfold supported; simpl. by rewrite andb_false_r.
Qed.

(** C3.  If the metric of the library is symmetric within [eps] then so is
    the score of [compare_images]: for any two arguments, either both orders
    fail or both return a score and the scores are within [eps]. *)
Theorem compare_images_score_symmetric `{CvPrims} (eps : Q) :
  (∀ s a b, (Qabs (ssim_score s a b - ssim_score s b a) <= eps)%Q) →
  ∀ image1 image2 : image,
    scores_within eps (score_of (compare_images image1 image2))
                      (score_of (compare_images image2 image1)).
Proof.
  intros Hsym image1 image2. rewrite !compare_images_eq.
  destruct (to_array image1) as [|a1], (to_array image2) as [|a2]; try done.
  rewrite (engine_ok_sym a2 a1). destruct (engine_ok a1 a2); [|done].
  unfold engine_value, common_height, common_width, score_of; cbn [fst cvt shape].
  rewrite !shape0_resized, !shape1_resized.
  rewrite (Nat.min_comm (shape0 (shape a2))), (Nat.min_comm (shape1 (shape a2))).
  apply Hsym.
Qed.

Lemma compare_images_score_symmetric_witness :
  scores_within 0
    (score_of (compare_images FlatPrims.rgb_8x9 FlatPrims.rgba_12x7))
    (score_of (compare_images FlatPrims.rgba_12x7 FlatPrims.rgb_8x9)).
Proof.
  apply (compare_images_score_symmetric (H := FlatPrims.flat_prims) 0).
  intros s a b. simpl. unfold FlatPrims.flat_ssim_score.
  repeat case_bool_decide; simplify_eq; done.
Defined.

End EngineClaims.

(** ** The classifiers *)

Module ClassifierClaims.
Import rdn_photo_comparison.

Lemma Qgtb_lt (x y : Q) : Qgtb x y = true ↔ (y < x)%Q.
Proof.
  unfold Qgtb. rewrite negb_true_iff, <- not_true_iff_false, Qle_bool_iff.
  split; [apply Qnot_le_lt | apply Qlt_not_le].
Qed.

Lemma Qgtb_le (x y : Q) : Qgtb x y = false ↔ (x <= y)%Q.
Proof. unfold Qgtb. by rewrite negb_false_iff, Qle_bool_iff. Qed.

Ltac case_threshold H :=
  first [apply Qgtb_lt in H | apply Qgtb_le in H].



End ClassifierClaims.

(** ** The batch branch *)

Module BatchFacts.
Import rdn_photo_comparison EngineForms EngineFacts.

Section Facts.
Context `{CvPrims}.

(** The keys of the dict built from an upload are the base names of its
    files. *)
Lemma dom_foldl_insert (files : list uploaded_file)
    (d : gmap string uploaded_file) :
  dom (foldl (λ d f, <[PyStr.basename (name f) := f]> d) d files)
  = dom d ∪ list_to_set (basenames files).
Proof.
  revert d. induction files as [|f files IH]; intros d; simpl.
  - set_solver.
  - rewrite IH, dom_insert_L. set_solver.
Qed.

Lemma elem_of_dom_file_dict (files : list uploaded_file) (n : string) :
  n ∈ dom (file_dict files) ↔ n ∈ basenames files.
Proof. unfold file_dict. rewrite dom_foldl_insert. set_solver. Qed.

Lemma elem_of_sorted (s : gset string) (n : string) : n ∈ sorted s ↔ n ∈ s.
Proof. unfold sorted. by rewrite merge_sort_Permutation, elem_of_elements. Qed.

Lemma NoDup_sorted (s : gset string) : NoDup (sorted s).
Proof. unfold sorted. rewrite merge_sort_Permutation. apply NoDup_elements. Qed.

Lemma length_sorted (s : gset string) : length (sorted s) = base.size s.
Proof. unfold sorted. by rewrite merge_sort_Permutation. Qed.

Lemma Sorted_sorted (s : gset string) : StronglySorted String.le (sorted s).
Proof. apply StronglySorted_merge_sort; apply _. Qed.

(** The four values come together or not at all. *)
Lemma compare_images_all_or_nothing (image1 image2 : image) :
  compare_images image1 image2 = (None, None, None, None)
  ∨ ∃ score o1 o2 o3,
      compare_images image1 image2 = (Some score, Some o1, Some o2, Some o3).
Proof.
  unfold compare_images.
  destruct (compare_images_try image1 image2) as [|[[[??]?]?]]; eauto 6.
Qed.

(** One turn of the loop on a pair that compares. *)
Lemma batch_step_succeeds (rd fd : gmap string uploaded_file)
    (acc : list batch_result) (n : string) :
  comparison_succeeds rd fd n →
  ∃ r, batch_step rd fd acc n = inr (acc ++ [r])
       ∧ filename r = n ∧ match_ r = is_match (score r).
Proof.
  intros (rf & ff & ri & fi & Hrf & Hff & Hri & Hfi & [sc Hsc]).
  unfold batch_step, getitem, Image_open.
  rewrite Hrf, Hff; simpl. rewrite Hri; simpl. rewrite Hfi; simpl.
  destruct (compare_images (PILImage ri) (PILImage fi)) as [[[s o1] o2] o3].
  unfold score_of in Hsc; simpl in Hsc. subst s. eauto.
Qed.

(** Whatever happens in a turn, the results so far stay and at most one is
    added, filed under the name of the turn. *)
Lemma batch_step_inr (rd fd : gmap string uploaded_file)
    (acc acc' : list batch_result) (n : string) :
  batch_step rd fd acc n = inr acc' →
  acc' = acc
  ∨ ∃ r, acc' = acc ++ [r] ∧ filename r = n ∧ match_ r = is_match (score r).
Proof.
  unfold batch_step.
  intros (rf & _ & Hrun)%result_bind_inr.
  apply result_bind_inr in Hrun as (ri & _ & Hrun).
  apply result_bind_inr in Hrun as (ff & _ & Hrun).
  apply result_bind_inr in Hrun as (fi & _ & Hrun).
  destruct (compare_images (PILImage ri) (PILImage fi)) as [[[[s|] o1] o2] o3];
    injection Hrun as <-; eauto.
Qed.

Lemma batch_loop_succeeds (rd fd : gmap string uploaded_file)
    (names : list string) (acc : list batch_result) :
  (∀ n, n ∈ names → comparison_succeeds rd fd n) →
  ∃ new, batch_loop rd fd acc names = inr (acc ++ new)
         ∧ filename <$> new = names.
Proof.
  revert acc. induction names as [|n names IH]; intros acc Hall; simpl.
  - exists []. by rewrite app_nil_r.
  - destruct (batch_step_succeeds rd fd acc n) as (r & -> & Hr & _).
    { apply Hall. by left. }
    rewrite result_bind_ok.
    destruct (IH (acc ++ [r])) as (new & -> & Hnew).
    { intros m Hm. apply Hall. by right. }
    exists (r :: new). rewrite <- app_assoc. split; [done|].
    rewrite fmap_cons. by rewrite Hr, Hnew.
Qed.

(** The ['match'] entry of every result is [score > 0.75]. *)
Lemma batch_loop_match_flag (rd fd : gmap string uploaded_file)
    (names : list string) (acc results : list batch_result) :
  Forall (λ r, match_ r = is_match (score r)) acc →
  batch_loop rd fd acc names = inr results →
  Forall (λ r, match_ r = is_match (score r)) results.
Proof.
  revert acc. induction names as [|n names IH]; intros acc Hacc; simpl.
  - by intros [= <-].
  - intros (acc' & Hstep & Hloop)%result_bind_inr.
    apply (IH acc'); [|done].
    apply batch_step_inr in Hstep as [->|(r & -> & _ & Hr)]; [done|].
    apply Forall_app. split; [done|]. by constructor.
Qed.

(** The division of the summary. *)
Lemma summary_statistics_eq (results : list batch_result) :
  summary_statistics results =
  match results with
  | [] => raise ZeroDivisionError
  | _ => ok (summary_of results)
  end.
Proof. by destruct results. Qed.

(** Only names of the list are compared, in the order of the list. *)
Lemma batch_loop_sublist (rd fd : gmap string uploaded_file)
    (names : list string) (acc results : list batch_result) :
  batch_loop rd fd acc names = inr results →
  ∃ new, results = acc ++ new ∧ (filename <$> new) `sublist_of` names.
Proof.
  revert acc. induction names as [|n names IH]; intros acc; simpl.
  - intros [= <-]. exists []. by rewrite app_nil_r.
  - intros (acc' & Hstep & Hloop)%result_bind_inr.
    apply IH in Hloop as (new & -> & Hsub).
    apply batch_step_inr in Hstep as [->|(r & -> & <- & _)].
    + exists new. split; [done|]. by apply sublist_cons.
    + exists (r :: new). rewrite <- app_assoc. split; [done|].
      rewrite fmap_cons. by apply sublist_skip.
Qed.

Lemma batch_comparison_eq (ref_files field_files : list uploaded_file)
    (results : list batch_result) :
  ref_files ≠ [] → field_files ≠ [] →
  common_files (file_dict ref_files) (file_dict field_files) ≠ ∅ →
  batch_loop (file_dict ref_files) (file_dict field_files) []
    (sorted (common_files (file_dict ref_files) (file_dict field_files)))
  = inr results →
  batch_comparison ref_files field_files =
  match results with
  | [] => Uncaught ZeroDivisionError
  | _ => BatchCompleted results (summary_of results)
  end.
Proof.
  intros Hr Hf Hc Hloop. unfold batch_comparison.
  destruct ref_files; [done|]. destruct field_files; [done|].
  cbn [is_nil orb]. rewrite bool_decide_eq_false_2 by done.
  rewrite Hloop, summary_statistics_eq. by destruct results.
Qed.

End Facts.
End BatchFacts.

Module BatchClaims.
Import rdn_photo_comparison EngineForms EngineFacts BatchFacts.

(** C4.  The names the batch loop goes through are exactly the base names
    found in both uploads, each once, in lexicographic order; what the loop
    collects is filed under names of that list, in that order; and when
    every comparison returns a score there is one result per common name, so
    as many results as the intersection has elements. *)
Theorem batch_compares_common_names `{CvPrims}
    (ref_files field_files : list uploaded_file) :
  let ref_dict := file_dict ref_files in
  let field_dict := file_dict field_files in
  let common := common_files ref_dict field_dict in
  let names := sorted common in
  (∀ n, n ∈ names ↔ n ∈ basenames ref_files ∧ n ∈ basenames field_files)
  ∧ NoDup names
  ∧ StronglySorted String.le names
  ∧ length names = base.size common
  ∧ (∀ results,
       batch_loop ref_dict field_dict [] names = inr results →
       (filename <$> results) `sublist_of` names)
  ∧ ((∀ n, n ∈ names → comparison_succeeds ref_dict field_dict n) →
     ∃ results,
       batch_loop ref_dict field_dict [] names = inr results
       ∧ filename <$> results = names
       ∧ length results = base.size common
       ∧ (ref_files ≠ [] → field_files ≠ [] → common ≠ ∅ →
          batch_comparison ref_files field_files
          = BatchCompleted results (summary_of results)
          ∧ total (summary_of results) = base.size common)).
Proof.
  intros ref_dict field_dict common names.
  split; [|split; [|split; [|split; [|split]]]].
  - intros n. unfold names, common, common_files, ref_dict, field_dict.
    rewrite elem_of_sorted, elem_of_intersection.
    by rewrite !elem_of_dom_file_dict.
  - apply NoDup_sorted.
  - apply Sorted_sorted.
  - apply length_sorted.
  - intros results (new & -> & Hsub)%batch_loop_sublist. done.
  - intros Hall.
    destruct (batch_loop_succeeds ref_dict field_dict names [] Hall)
      as (results & Hloop & Hnames).
    simpl in Hloop. exists results.
    assert (Hlen : length results = base.size common).
    { rewrite <- (length_fmap filename), Hnames. apply length_sorted. }
    repeat split; try done.
    + rewrite (batch_comparison_eq _ _ results) by done.
      destruct results as [|r results]; [|done].
      simpl in Hlen. symmetry in Hlen. by apply size_empty_inv, leibniz_equiv in Hlen.
Qed.

Lemma batch_compares_common_names_witness :
  ∃ results,
    batch_comparison FlatPrims.reference_abc FlatPrims.field_bcd
    = BatchCompleted results (summary_of results)
    ∧ filename <$> results = ["B"; "C"]
    ∧ length results = 2.
Proof.
  destruct (batch_compares_common_names
              FlatPrims.reference_abc FlatPrims.field_bcd)
    as (_ & _ & _ & _ & _ & Hall).
  destruct Hall as (results & _ & Hnames & Hlen & Hrun).
  - intros n Hn.
    assert (n = "B" ∨ n = "C") as [-> | ->].
    { vm_compute in Hn. set_solver. }
    + by eexists _, _, _, _; repeat split; [vm_compute; reflexivity..|eexists].
    + by eexists _, _, _, _; repeat split; [vm_compute; reflexivity..|eexists].
  - exists results. destruct Hrun as [Hrun _]; [done..| |].
    + intros Hempty. by vm_compute in Hempty.
    + by rewrite Hrun, Hnames, Hlen.
Defined.

(** C8.  A batch whose only common file has a body that cannot be decoded:
    [compare_images] returns nothing but [None], the pair is skipped, and the
    division of the summary by the empty count stops the run.  A batch with
    a file no decoder recognises: [Image.open] stops the run at that file,
    after a first pair that compared. *)
Theorem batch_aborts_on_failed_comparisons `{CvPrims} (px : pixels) :
  let truncated := {| mode := RGB; size := (640, 480); data := None |} in
  let good := {| mode := RGB; size := (640, 480); data := Some px |} in
  let a_truncated := {| name := "a.jpg"; content := Some truncated |} in
  let a_good := {| name := "a.jpg"; content := Some good |} in
  let b_unknown := {| name := "b.jpg"; content := None |} in
  compare_images (PILImage truncated) (PILImage truncated)
  = (None, None, None, None)
  ∧ batch_comparison [a_truncated] [a_truncated] = Uncaught ZeroDivisionError
  ∧ batch_comparison [a_good; b_unknown] [a_good; b_unknown]
    = Uncaught UnidentifiedImageError.
Proof.
  intros truncated good a_truncated a_good b_unknown.
  split; [|split]; [vm_compute; reflexivity..|].
  unfold batch_comparison. cbn [is_nil orb].
  set (d := file_dict [a_good; b_unknown]).
  assert (sorted (common_files d d) = ["a.jpg"; "b.jpg"]) as ->
    by (vm_compute; reflexivity).
  assert (bool_decide (common_files d d = ∅) = false) as ->
    by (vm_compute; reflexivity).
  assert (Ha : d !! "a.jpg" = Some a_good) by (vm_compute; reflexivity).
  assert (Hb : d !! "b.jpg" = Some b_unknown) by (vm_compute; reflexivity).
  cbn [batch_loop]. unfold batch_step, getitem. rewrite Ha, Hb.
  repeat first
    [ rewrite result_bind_ok
    | progress change (Image_open a_good) with (ok good) ].
  destruct (compare_images (PILImage good) (PILImage good))
    as [[[[sc|] o1] o2] o3]; by rewrite !result_bind_ok.
Qed.

(** C9.  Once there is a common file name and the loop has ended with
    [results], the summary is computed without a test on [results]: with no
    result the division raises [ZeroDivisionError]; with at least one the
    summary shows the number of results, the number of those with a score
    above 0.75 and their ratio times 100. *)
Theorem batch_summary_unguarded `{CvPrims}
    (ref_files field_files : list uploaded_file)
    (results : list batch_result) :
  ref_files ≠ [] → field_files ≠ [] →
  common_files (file_dict ref_files) (file_dict field_files) ≠ ∅ →
  batch_loop (file_dict ref_files) (file_dict field_files) []
    (sorted (common_files (file_dict ref_files) (file_dict field_files)))
  = inr results →
  let t := length results in
  let m := length (List.filter (λ r, Qgtb (score r) (75 # 100)) results) in
  (t = 0 →
   batch_comparison ref_files field_files = Uncaught ZeroDivisionError)
  ∧ (0 < t →
     batch_comparison ref_files field_files
     = BatchCompleted results
         {| total := t;
            matched := m;
            percentage := (inject_Z (Z.of_nat m) / inject_Z (Z.of_nat t) * 100)%Q;
            non_matching := t - m |}).
Proof.
  intros Hr Hf Hc Hloop t m.
  rewrite (batch_comparison_eq _ _ results) by done.
  assert (Hm : length (List.filter match_ results) = m).
  { apply (batch_loop_match_flag _ _ _ []) in Hloop; [|done].
    unfold m. clear -Hloop. induction Hloop as [|r rs Hr _ IH]; [done|].
    simpl. rewrite Hr. unfold is_match. destruct (Qgtb _ _); simpl; by rewrite IH. }
  split.
  - intros Ht. by destruct results.
  - intros Ht. destruct results as [|r rs]; [simpl in *; lia|].
    unfold summary_of. by rewrite Hm.
Qed.

Lemma batch_summary_unguarded_witness :
  batch_comparison FlatPrims.reference_ab FlatPrims.field_ab
  = BatchCompleted FlatPrims.results_ab
      {| total := 1; matched := 1; percentage := (1 / 1 * 100)%Q;
         non_matching := 0 |}.
Proof.
  refine (proj2 (batch_summary_unguarded
            FlatPrims.reference_ab FlatPrims.field_ab FlatPrims.results_ab
            _ _ _ _) _).
  - done.
  - done.
  - intros Hempty. by vm_compute in Hempty.
  - vm_compute. reflexivity.
  - simpl. lia.
Defined.

End BatchClaims.


(** ** Python strings *)

Module PyStrFacts.
Import PyStr.

Lemma startswith_app (p s : string) :
  startswith p s = true ↔ ∃ rest, s = p +:+ rest.
Proof.
  unfold startswith. revert s. induction p as [|c p IH]; intros s; simpl.
  - split; [intros _; by exists s | by destruct s].
  - destruct s as [|c' s]; simpl.
    + split; [done | by intros [? ?]].
    + destruct (Ascii.ascii_dec c c') as [<-|Hne].
      * rewrite IH. split; intros [rest Hrest]; exists rest.
        -- by rewrite Hrest.
        -- change (String c p +:+ rest) with (String c (p +:+ rest)) in Hrest.
           congruence.
      * split; [done|]. intros [rest Hrest].
        change (String c p +:+ rest) with (String c (p +:+ rest)) in Hrest.
        congruence.
Qed.

(** [sep in s] finds an occurrence, and [s.split(sep)[0]] is what precedes
    the first one: [sep] follows it, and [sep] starts at no earlier index. *)
Lemma before_first_spec (sep s : string) :
  contains sep s = true →
  (∃ rest, s = before_first sep s +:+ sep +:+ rest)
  ∧ ∀ i, i < String.length (before_first sep s) →
         startswith sep (drop i s) = false.
Proof.
  induction s as [|c s IH]; cbn [contains before_first].
  - rewrite orb_false_r. intros Hp. rewrite Hp.
    split; [by apply startswith_app in Hp | simpl; lia].
  - destruct (startswith sep (String c s)) eqn:Hp; cbn [orb].
    + intros _. split; [by apply startswith_app in Hp | simpl; lia].
    + intros [[rest Hrest] Hfirst]%IH. split.
      * exists rest.
        change (String c (before_first sep s) +:+ sep +:+ rest)
          with (String c (before_first sep s +:+ sep +:+ rest)).
        by rewrite <- Hrest.
      * intros [|i] Hi; cbn [drop]; [done|]. apply Hfirst.
        cbn [String.length] in Hi. lia.
Qed.

(** Without an occurrence [s.split(sep)[0]] is [s]. *)
Lemma before_first_absent (sep s : string) :
  contains sep s = false → before_first sep s = s.
Proof.
  induction s as [|c s IH]; cbn [contains before_first].
  - by intros [-> _]%orb_false_elim.
  - intros [-> Hc]%orb_false_elim. by rewrite IH.
Qed.

End PyStrFacts.

(** ** The folder scanner *)

Module PairingFacts.
Import verification_app VerificationForms.

(** The loop body files a file under its role, or leaves the dict alone. *)
Lemma scan_file_role (d : pairs_dict) (file : string) :
  scan_file d file =
  match role_of file with
  | Some (key, base_id) => setdefault_set d base_id key file
  | None => d
  end.
Proof.
  unfold scan_file, role_of.
  destruct (PyStr.endswith_any _ _); [|done].
  destruct (PyStr.contains "_original" file); [done|].
  by destruct (PyStr.contains "_proof" file).
Qed.

(** The keys of a role are the two the source uses. *)
Lemma role_of_key (file key base_id : string) :
  role_of file = Some (key, base_id) → key = "original" ∨ key = "proof".
Proof.
  unfold role_of. intros Hrole.
  repeat case_match; simplify_eq; auto.
Qed.

(** A dict has one entry per key. *)
Lemma pairs_dict_unique (d : pairs_dict) (k : string)
    (e1 e2 : gmap string string) :
  NoDup d.*1 → (k, e1) ∈ d → (k, e2) ∈ d → e1 = e2.
Proof.
  induction d as [|[k0 e0] d IH]; simpl.
  - by intros _ ?%not_elem_of_nil.
  - intros [Hk0 Hnd]%NoDup_cons.
    intros [E1|Hin1]%elem_of_cons [E2|Hin2]%elem_of_cons; simplify_eq.
    + done.
    + destruct Hk0. apply list_elem_of_fmap. by exists (k0, e2).
    + destruct Hk0. apply list_elem_of_fmap. by exists (k0, e1).
    + by apply IH.
Qed.

(** [setdefault_set]: the keys, in order. *)
Lemma setdefault_set_keys (d : pairs_dict) (base_id key file : string) :
  (setdefault_set d base_id key file).*1
  = if bool_decide (base_id ∈ d.*1) then d.*1 else d.*1 ++ [base_id].
Proof.
  induction d as [|[k e] d IH]; simpl.
  - done.
  - destruct (decide (k = base_id)) as [->|Hk].
    + rewrite !bool_decide_eq_true_2; [done | by left | done].
    + rewrite (bool_decide_eq_false_2 (k = base_id)) by done.
      cbn [fmap list_fmap fst]. fold (fmap (M := list) (@fst string (gmap string string))).
      rewrite IH.
      destruct (decide (base_id ∈ d.*1)) as [Hin|Hin].
      * rewrite !bool_decide_eq_true_2; [done | by right | done].
      * rewrite !bool_decide_eq_false_2; [done | | done].
        intros [?|?]%elem_of_cons; congruence.
Qed.

Lemma setdefault_set_NoDup (d : pairs_dict) (base_id key file : string) :
  NoDup d.*1 → NoDup (setdefault_set d base_id key file).*1.
Proof.
  intros Hd. rewrite setdefault_set_keys. case_bool_decide; [done|].
  apply NoDup_app. split_and!; [done| |apply NoDup_singleton].
  intros x Hx ->%list_elem_of_singleton. done.
Qed.

(** Every entry afterwards is an old entry, or the entry of [base_id] with
    [key] set to [file]. *)
Lemma setdefault_set_elem (d : pairs_dict) (base_id key file k : string)
    (e : gmap string string) :
  (k, e) ∈ setdefault_set d base_id key file →
  (k, e) ∈ d
  ∨ k = base_id ∧ ∃ e0, e = <[key := file]> e0 ∧ ((k, e0) ∈ d ∨ e0 = ∅).
Proof.
  induction d as [|[k0 e0] d IH]; simpl.
  - intros [= -> ->]%list_elem_of_singleton. right. eauto.
  - case_bool_decide as Hk.
    + subst k0. intros [[= -> ->]|Hin]%elem_of_cons.
      * right. split; [done|]. exists e0. split; [done|]. left. by left.
      * left. by right.
    + intros [[= -> ->]|Hin]%elem_of_cons.
      * left. by left.
      * apply IH in Hin as [Hin|(-> & e1 & -> & [Hin| ->])].
        -- left. by right.
        -- right. split; [done|]. exists e1. split; [done|]. left. by right.
        -- right. split; [done|]. exists ∅. eauto.
Qed.

(** An old entry is still there, with at least the keys it had. *)
Lemma setdefault_set_keeps (d : pairs_dict) (base_id key file k : string)
    (e : gmap string string) :
  (k, e) ∈ d →
  ∃ e', (k, e') ∈ setdefault_set d base_id key file
        ∧ ∀ key0, is_Some (e !! key0) → is_Some (e' !! key0).
Proof.
  induction d as [|[k0 e0] d IH]; simpl.
  - by intros ?%not_elem_of_nil.
  - intros [[= <- <-]|Hin]%elem_of_cons.
    + case_bool_decide as Hk.
      * exists (<[key := file]> e). split; [by left|].
        intros key0 He. destruct (decide (key = key0)) as [->|Hne].
        -- rewrite lookup_insert_eq. eauto.
        -- by rewrite lookup_insert_ne.
      * exists e. split; [by left | done].
    + case_bool_decide as Hk.
      * exists e. split; [by right | done].
      * destruct (IH Hin) as (e' & Hin' & He'). exists e'.
        split; [by right | done].
Qed.

(** The entry of [base_id] is there afterwards and has [key]. *)
Lemma setdefault_set_sets (d : pairs_dict) (base_id key file : string) :
  ∃ e, (base_id, e) ∈ setdefault_set d base_id key file
       ∧ e !! key = Some file.
Proof.
  induction d as [|[k0 e0] d IH]; simpl.
  - exists (<[key := file]> ∅). split; [by left | apply lookup_insert_eq].
  - case_bool_decide as Hk.
    + subst k0. exists (<[key := file]> e0).
      split; [by left | apply lookup_insert_eq].
    + destruct IH as (e & Hin & He). exists e. split; [by right | done].
Qed.

(** What the loop over the files has built: distinct identifiers; every
    file in an entry is a file of the folder with that role and identifier;
    every file with a role has its slot filled. *)
Lemma scan_files_invariant (files : list string) :
  let d := foldl scan_file [] files in
  NoDup d.*1
  ∧ (∀ k e key f, (k, e) ∈ d → e !! key = Some f →
       f ∈ files ∧ role_of f = Some (key, k))
  ∧ (∀ f key k, f ∈ files → role_of f = Some (key, k) →
       ∃ e, (k, e) ∈ d ∧ is_Some (e !! key)).
Proof.
  induction files as [|file files IH] using rev_ind; simpl.
  - split_and!; [constructor | by intros ???? ?%not_elem_of_nil
                 | by intros ??? ?%not_elem_of_nil].
  - rewrite foldl_app; simpl.
    destruct IH as (Hnd & Hsound & Hcomplete).
    set (d := foldl scan_file [] files) in *.
    rewrite scan_file_role.
    destruct (role_of file) as [[key0 k0]|] eqn:Hrole.
    + split_and!.
      * by apply setdefault_set_NoDup.
      * intros k e key f Hin He.
        apply setdefault_set_elem in Hin as [Hin|(-> & e0 & -> & Hin)].
        { destruct (Hsound _ _ _ _ Hin He) as [Hf Hr].
          split; [|done]. apply elem_of_app. by left. }
        destruct (decide (key0 = key)) as [->|Hne].
        { rewrite lookup_insert_eq in He. injection He as <-.
          split; [|done]. apply elem_of_app. right. by left. }
        rewrite lookup_insert_ne in He by done.
        destruct Hin as [Hin| ->]; [|by rewrite lookup_empty in He].
        destruct (Hsound _ _ _ _ Hin He) as [Hf Hr].
        split; [|done]. apply elem_of_app. by left.
      * intros f key k [Hf|Hf]%elem_of_app Hr.
        { destruct (Hcomplete _ _ _ Hf Hr) as (e & Hin & He).
          destruct (setdefault_set_keeps d k0 key0 file _ _ Hin)
            as (e' & Hin' & He'). eauto. }
        apply list_elem_of_singleton in Hf as ->.
        rewrite Hrole in Hr. injection Hr as <- <-.
        destruct (setdefault_set_sets d k0 key0 file) as (e & Hin & He).
        exists e. split; [done|]. by rewrite He.
    + split_and!; [done | |].
      * intros k e key f Hin He. destruct (Hsound _ _ _ _ Hin He) as [Hf Hr].
        split; [|done]. apply elem_of_app. by left.
      * intros f key k [Hf|Hf]%elem_of_app Hr; [eauto|].
        apply list_elem_of_singleton in Hf as ->. congruence.
Qed.

(** The pairs kept are the entries with both keys. *)
Lemma elem_of_valid_pairs (folder : string) (d : pairs_dict) (p : image_pair) :
  p ∈ valid_pairs folder d ↔
  ∃ e o pr, (id p, e) ∈ d
            ∧ e !! "original" = Some o ∧ e !! "proof" = Some pr
            ∧ original p = PyStr.join folder o
            ∧ proof p = PyStr.join folder pr.
Proof.
  induction d as [|[k e] d IH]; simpl.
  - split; [by intros ?%not_elem_of_nil|].
    by intros (? & ? & ? & ?%not_elem_of_nil & _).
  - destruct (e !! "original") as [o|] eqn:Ho;
      [destruct (e !! "proof") as [pr|] eqn:Hpr|].
    + rewrite elem_of_cons, IH. split.
      * intros [->|(e' & o' & pr' & Hin & H')]; simpl.
        -- exists e, o, pr. split; [by left | done].
        -- exists e', o', pr'. split; [by right | done].
      * intros (e' & o' & pr' & [[= Hk <-]|Hin]%elem_of_cons & Ho' & Hpr' & Hpo & Hpp).
        -- left. destruct p as [i po pp]; simpl in *. congruence.
        -- right. by exists e', o', pr'.
    + rewrite IH. split.
      * intros (e' & o' & pr' & Hin & H'). exists e', o', pr'.
        split; [by right | done].
      * intros (e' & o' & pr' & [[= Hk <-]|Hin]%elem_of_cons & Ho' & Hpr' & Hjoin);
          [congruence|]. by exists e', o', pr'.
    + rewrite IH. split.
      * intros (e' & o' & pr' & Hin & H'). exists e', o', pr'.
        split; [by right | done].
      * intros (e' & o' & pr' & [[= Hk <-]|Hin]%elem_of_cons & Ho' & Hpr' & Hjoin);
          [congruence|]. by exists e', o', pr'.
Qed.

(** Their identifiers come in the order of the dict. *)
Lemma valid_pairs_ids (folder : string) (d : pairs_dict) :
  (id <$> valid_pairs folder d) `sublist_of` d.*1.
Proof.
  induction d as [|[k e] d IH]; simpl; [done|].
  destruct (e !! "original"), (e !! "proof"); simpl;
    by (apply sublist_skip || apply sublist_cons).
Qed.

End PairingFacts.

Module PairingClaims.
Import verification_app VerificationForms PairingFacts.

(** C10.  [get_image_pairs] gives every file of the folder at most one role.
    The loop body files a file under the role and identifier of [role_of]
    (an image file with ["_original"] is an original, else one with
    ["_proof"] is a proof, the identifier being what precedes the first
    marker) and leaves the dict alone for a file without a role.  Every pair
    returned joins the folder with an original file and with a proof file of
    the listing that carry the identifier of the pair; an identifier with
    both kinds of file gives a pair; no identifier comes twice; and a
    listing that cannot be read gives no pair. *)
Theorem get_image_pairs_roles (fs : file_system) (folder : string) :
  (∀ d file,
     scan_file d file =
     match role_of file with
     | Some (key, base_id) => setdefault_set d base_id key file
     | None => d
     end)
  ∧ (∀ file sep,
       (sep = "_original" ∧ role_of file
                             = Some ("original", PyStr.before_first sep file)
        ∨ sep = "_proof" ∧ role_of file
                           = Some ("proof", PyStr.before_first sep file)) →
       (∃ rest, file = PyStr.before_first sep file +:+ sep +:+ rest)
       ∧ ∀ i, i < String.length (PyStr.before_first sep file) →
              PyStr.startswith sep (PyStr.drop i file) = false)
  ∧ (∀ files,
       listdir fs folder = inr files →
       let pairs := get_image_pairs fs folder in
       (∀ p, p ∈ pairs →
          ∃ fo fp, fo ∈ files ∧ fp ∈ files
                   ∧ role_of fo = Some ("original", id p)
                   ∧ role_of fp = Some ("proof", id p)
                   ∧ original p = PyStr.join folder fo
                   ∧ proof p = PyStr.join folder fp)
       ∧ (∀ fo fp k, fo ∈ files → fp ∈ files →
            role_of fo = Some ("original", k) →
            role_of fp = Some ("proof", k) →
            ∃ p, p ∈ pairs ∧ id p = k)
       ∧ NoDup (id <$> pairs))
  ∧ (∀ e, listdir fs folder = inl e → get_image_pairs fs folder = []).
Proof.
  split; [exact scan_file_role|]. split; [|split].
  - intros file sep Hrole. apply PyStrFacts.before_first_spec.
    unfold role_of in Hrole.
    destruct (PyStr.endswith_any _ _);
      destruct (PyStr.contains "_original" file) eqn:Ho;
      destruct (PyStr.contains "_proof" file) eqn:Hp;
      destruct Hrole as [[-> Hr]|[-> Hr]]; simplify_eq; done.
  - intros files Hls pairs. unfold pairs, get_image_pairs. rewrite Hls.
    destruct (scan_files_invariant files) as (Hnd & Hsound & Hcomplete).
    set (d := foldl scan_file [] files) in *. split_and!.
    + intros p (e & o & pr & Hin & Ho & Hpr & Hpo & Hpp)%elem_of_valid_pairs.
      destruct (Hsound _ _ _ _ Hin Ho) as [Hfo Hro].
      destruct (Hsound _ _ _ _ Hin Hpr) as [Hfp Hrp].
      by exists o, pr.
    + intros fo fp k Hfo Hfp Hro Hrp.
      destruct (Hcomplete _ _ _ Hfo Hro) as (e1 & Hin1 & [o Ho]).
      destruct (Hcomplete _ _ _ Hfp Hrp) as (e2 & Hin2 & [pr Hpr]).
      assert (e1 = e2) as <-.
      { by eapply pairs_dict_unique. }
      exists {| id := k; original := PyStr.join folder o;
                proof := PyStr.join folder pr |}.
      split; [|done]. apply elem_of_valid_pairs. by exists e1, o, pr.
    + eapply sublist_NoDup; [exact Hnd | apply valid_pairs_ids].
  - intros e He. unfold get_image_pairs. by rewrite He.
Qed.

Lemma get_image_pairs_roles_witness :
  get_image_pairs sample_fs "photos"
  = [ {| id := "12"; original := "photos/12_original.jpg";
         proof := "photos/12_proof.PNG" |};
      {| id := "30"; original := "photos/30_original.png";
         proof := "photos/30_proof.png" |} ]
  ∧ NoDup (id <$> get_image_pairs sample_fs "photos")
  ∧ ∃ p, p ∈ get_image_pairs sample_fs "photos" ∧ id p = "30".
Proof.
  split; [vm_compute; reflexivity|].
  destruct (get_image_pairs_roles sample_fs "photos") as (_ & _ & Hroles & _).
  destruct (Hroles sample_files eq_refl) as (_ & Hcomplete & Hnd).
  split; [exact Hnd|].
  apply (Hcomplete "30_original.png" "30_proof.png").
  - set_solver.
  - set_solver.
  - vm_compute. reflexivity.
  - vm_compute. reflexivity.
Defined.

End PairingClaims.

(** ** The verification session *)

Module SessionFacts.
Import verification_app VerificationForms.

Lemma is_nil_false {A} (l : list A) :
  is_nil l = false ↔ l ≠ [].
Proof. by destruct l. Qed.

Lemma set_complete_id (vd : verification_data) :
  verification_complete vd = true → set_complete vd = vd.
Proof. destruct vd; simpl. by intros ->. Qed.

(** A run with the folder of the session in the text input, the folder
    there and pairs in it: the script gets to the cursor test. *)
Lemma main_same_folder (fs : file_system) (vd : verification_data)
    (folder : string) (clicked : option button) (now : string) :
  truthy folder = true → folder_path vd = Some folder →
  path_exists fs folder = true → image_pairs vd ≠ [] →
  main fs (Some vd) folder clicked now =
  if (length (image_pairs vd) <=? current_pair vd)%nat then
    (set_complete vd, ViewAllVerified (decisions vd), Finished)
  else
    match image_pairs vd !! current_pair vd with
    | None => (vd, ViewIdle, Crashed IndexError)
    | Some current_data =>
        let shown := ViewPair current_data (current_pair vd + 1)
                       (length (image_pairs vd)) in
        match clicked with
        | Some b => (record_decision vd current_data b now, shown, Rerun)
        | None => (vd, shown, Finished)
        end
    end.
Proof.
  intros Ht Hf He Hp. unfold main.
  change (default initial_data (Some vd)) with vd.
  rewrite Ht, Hf, He. rewrite bool_decide_eq_true_2 by done.
  cbn [negb andb]. apply is_nil_false in Hp. by rewrite Hp.
Qed.

(** A press on a shown pair and the rerun it causes. *)
Lemma script_run_press (fs : file_system) (vd : verification_data)
    (folder : string) (b : button) (now : string) (p : image_pair) :
  truthy folder = true → folder_path vd = Some folder →
  path_exists fs folder = true →
  image_pairs vd !! current_pair vd = Some p →
  state_after (script_run fs (Some vd) folder (Some b) now) =
  let vd' := record_decision vd p b now in
  if (length (image_pairs vd) <=? current_pair vd + 1)%nat
  then set_complete vd' else vd'.
Proof.
  intros Ht Hf He Hp.
  assert (Hlt : current_pair vd < length (image_pairs vd))
    by (by eapply lookup_lt_Some).
  assert (Hne : image_pairs vd ≠ []) by (intros Hnil; rewrite Hnil in Hlt; simpl in Hlt; lia).
  unfold script_run. rewrite main_same_folder by done.
  destruct (Nat.leb_spec (length (image_pairs vd)) (current_pair vd)); [lia|].
  rewrite Hp. cbv beta iota zeta.
  rewrite main_same_folder by done.
  cbn [record_decision image_pairs current_pair].
  destruct (Nat.leb_spec (length (image_pairs vd)) (current_pair vd + 1)).
  - done.
  - destruct (image_pairs vd !! (current_pair vd + 1)) eqn:Hnext; [done|].
    apply lookup_ge_None in Hnext. lia.
Qed.

(** A run past the last pair takes no button. *)
Lemma script_run_past_end (fs : file_system) (vd : verification_data)
    (folder : string) (clicked : option button) (now : string) :
  truthy folder = true → folder_path vd = Some folder →
  path_exists fs folder = true → image_pairs vd ≠ [] →
  length (image_pairs vd) ≤ current_pair vd →
  script_run fs (Some vd) folder clicked now
  = (set_complete vd, ViewAllVerified (decisions vd), Finished).
Proof.
  intros Ht Hf He Hp Hle. unfold script_run.
  rewrite main_same_folder by done.
  by destruct (Nat.leb_spec (length (image_pairs vd)) (current_pair vd)); [|lia].
Qed.

(** The first run with a folder in the text input. *)
Lemma script_run_load (fs : file_system) (folder : string) (now : string) :
  truthy folder = true →
  state_after (script_run fs None folder None now) =
  {| current_pair := 0;
     decisions := [];
     image_pairs := get_image_pairs fs folder;
     verification_complete := false;
     folder_path := Some folder |}.
Proof.
  intros Ht. unfold script_run, main.
  change (default initial_data None) with initial_data.
  cbn [initial_data folder_path]. rewrite Ht. rewrite bool_decide_eq_false_2 by done. cbn [negb andb].
  destruct (path_exists fs folder); cbn [negb]; [|done].
  cbn [image_pairs current_pair].
  destruct (get_image_pairs fs folder) as [|p ps] eqn:Hp; [done|].
  cbn [is_nil length Nat.leb lookup list_lookup].
  done.
Qed.

(** A series of presses, while pairs are left: the cursor moves by their
    number, the log grows by their records in the order of the pairs, and
    the flag is set when the last pair is passed. *)
Lemma run_presses_spec (fs : file_system) (folder : string)
    (presses : list press) (vd : verification_data) :
  truthy folder = true → path_exists fs folder = true →
  folder_path vd = Some folder →
  current_pair vd + length presses ≤ length (image_pairs vd) →
  let vd' := run_presses fs folder vd presses in
  current_pair vd' = current_pair vd + length presses
  ∧ decisions vd' = decisions vd
      ++ zip_with record_of (drop (current_pair vd) (image_pairs vd)) presses
  ∧ image_pairs vd' = image_pairs vd
  ∧ folder_path vd' = Some folder
  ∧ (presses ≠ [] → current_pair vd' = length (image_pairs vd) →
     verification_complete vd' = true).
Proof.
  intros Ht He. revert vd.
  induction presses as [|[b now] presses IH]; intros vd Hf Hlen; simpl.
  - rewrite Nat.add_0_r, zip_with_nil_r, app_nil_r. done.
  - simpl in Hlen.
    destruct (image_pairs vd !! current_pair vd) as [p|] eqn:Hp;
      [|apply lookup_ge_None in Hp; lia].
    rewrite (script_run_press _ _ _ _ _ p) by done. cbv zeta.
    set (vd1 := if (length (image_pairs vd) <=? current_pair vd + 1)%nat
                then set_complete (record_decision vd p b now)
                else record_decision vd p b now).
    assert (Hc1 : current_pair vd1 = current_pair vd + 1)
      by (unfold vd1; by destruct (_ <=? _)%nat).
    assert (Hd1 : decisions vd1 = decisions vd ++ [record_of p (b, now)])
      by (unfold vd1; by destruct (_ <=? _)%nat).
    assert (Hp1 : image_pairs vd1 = image_pairs vd)
      by (unfold vd1; by destruct (_ <=? _)%nat).
    assert (Hf1 : folder_path vd1 = Some folder)
      by (unfold vd1; by destruct (_ <=? _)%nat).
    assert (Hflag1 : current_pair vd1 = length (image_pairs vd) →
                     verification_complete vd1 = true).
    { unfold vd1. destruct (Nat.leb_spec (length (image_pairs vd))
                              (current_pair vd + 1)); [done|].
      simpl. lia. }
    destruct (IH vd1) as (Hc & Hd & Hps & Hfo & Hflag).
    { done. }
    { rewrite Hc1, Hp1. lia. }
    fold (run_presses fs folder vd1 presses).
    rewrite Hc1, Hd1, Hp1 in *. split_and!.
    + lia.
    + rewrite Hd, <- app_assoc. f_equal.
      rewrite (drop_S _ p (current_pair vd)) by done.
      by rewrite Nat.add_1_r.
    + done.
    + done.
    + intros _ Hend. destruct presses as [|e presses].
      * simpl in *. apply Hflag1. lia.
      * by apply Hflag.
Qed.

(** Every run keeps the invariant of the session. *)
Lemma main_inv (fs : file_system) (vd : verification_data)
    (input : string) (clicked : option button) (now : string) :
  session_inv vd →
  session_inv (state_after (main fs (Some vd) input clicked now)).
Proof.
  intros Hinv. unfold main.
  change (default initial_data (Some vd)) with vd.
  set (vd0 := if truthy input && negb (bool_decide (Some input = folder_path vd))
              then _ else vd).
  assert (Hinv0 : session_inv vd0
                  ∧ (truthy input = true → folder_path vd0 = Some input)).
  { unfold vd0. destruct (truthy input); cbn [andb].
    - case_bool_decide as Hf; cbn [negb]; [by split|].
      split; [|done].
      unfold session_inv; simpl. split_and!; [lia | done | done].
    - by split. }
  clearbody vd0. clear Hinv vd.
  destruct Hinv0 as ((Hle & Hlog & Hflag) & Hfolder).
  destruct (truthy input); [|done].
  destruct (path_exists fs input); cbn [negb]; [|done].
  destruct (is_nil (image_pairs vd0)) eqn:Hnil; [done|].
  apply is_nil_false in Hnil.
  destruct (Nat.leb_spec (length (image_pairs vd0)) (current_pair vd0)).
  - unfold state_after, session_inv; simpl. split_and!; [done..|].
    intros _. split_and!; [lia | done |]. rewrite Hfolder by done. eauto.
  - destruct (image_pairs vd0 !! current_pair vd0) as [p|]; [|done].
    destruct clicked as [b|]; [|done].
    unfold state_after, session_inv; simpl. split_and!.
    + lia.
    + rewrite length_app; simpl. lia.
    + intros Hc. destruct (Hflag Hc). lia.
Qed.

Lemma script_run_inv (fs : file_system) (vd : verification_data)
    (input : string) (clicked : option button) (now : string) :
  session_inv vd →
  session_inv (state_after (script_run fs (Some vd) input clicked now)).
Proof.
  intros Hinv. unfold script_run.
  pose proof (main_inv fs vd input clicked now Hinv) as H1.
  destruct (main fs (Some vd) input clicked now) as [[vd1 v] [| |e]]; try done.
  by apply main_inv.
Qed.

Lemma reachable_inv (vd : verification_data) : reachable vd → session_inv vd.
Proof.
  induction 1 as [|fs vd input clicked now _ IH].
  - unfold session_inv; simpl. by split_and!.
  - by apply script_run_inv.
Qed.

Lemma reachable_run_presses (fs : file_system) (folder : string)
    (presses : list press) (vd : verification_data) :
  reachable vd → reachable (run_presses fs folder vd presses).
Proof.
  revert vd. induction presses as [|[b now] presses IH]; intros vd Hr; [done|].
  simpl. apply IH. by constructor.
Qed.

End SessionFacts.

Module SessionClaims.
Import verification_app VerificationForms SessionFacts.

(** C6.  With the folder of the session in the text input and the folder
    there: a press of any of the three buttons on a shown pair appends one
    record, for that pair, to the log and moves the cursor by one, whatever
    the button; and after one press for each of the pairs of the folder the
    session is in the state [Complete], the cursor is at the number of
    pairs, the log has one record per pair, the records come in the order of
    the pairs, and, the folder having at least one pair, the completion flag
    is set. *)
Theorem recording_decisions (fs : file_system) (folder : string) :
  truthy folder = true → path_exists fs folder = true →
  (∀ vd b now,
     folder_path vd = Some folder →
     current_pair vd < length (image_pairs vd) →
     ∃ p, image_pairs vd !! current_pair vd = Some p
          ∧ let vd' := state_after
                         (script_run fs (Some vd) folder (Some b) now) in
            decisions vd' = decisions vd ++ [record_of p (b, now)]
            ∧ length (decisions vd') = length (decisions vd) + 1
            ∧ current_pair vd' = current_pair vd + 1
            ∧ image_pairs vd' = image_pairs vd)
  ∧ (∀ presses now0,
       let pairs := get_image_pairs fs folder in
       length presses = length pairs →
       let vd := run_presses fs folder
                   (state_after (script_run fs None folder None now0))
                   presses in
       state_of vd = Complete
       ∧ current_pair vd = length pairs
       ∧ decisions vd = zip_with record_of pairs presses
       ∧ length (decisions vd) = length pairs
       ∧ (pairs ≠ [] → verification_complete vd = true)).
Proof.
  intros Ht He. split.
  - intros vd b now Hf Hlt.
    destruct (image_pairs vd !! current_pair vd) as [p|] eqn:Hp;
      [|apply lookup_ge_None in Hp; lia].
    exists p. split; [done|]. cbv zeta.
    rewrite (script_run_press _ _ _ _ _ p) by done. cbv zeta.
    destruct (_ <=? _)%nat; simpl; rewrite length_app; simpl; done.
  - intros presses now0 pairs Hlen vd. subst vd pairs.
    rewrite script_run_load by done.
    match goal with |- context [run_presses fs folder ?v presses] =>
      destruct (run_presses_spec fs folder presses v Ht He eq_refl)
        as (Hc & Hd & Hp & Hf & Hflag)
    end.
    { simpl. lia. }
    simpl in Hc, Hd, Hp, Hflag. rewrite drop_0 in Hd.
    unfold state_of. rewrite Hf, Hd, Hc, Hp. split_and!.
    + by destruct (Nat.ltb_spec (length presses)
                     (length (get_image_pairs fs folder))); [lia|].
    + done.
    + done.
    + rewrite length_zip_with. lia.
    + intros Hne. apply Hflag; [|lia]. intros ->.
      destruct (get_image_pairs fs folder); simpl in Hlen; done.
Qed.

Lemma recording_decisions_witness :
  let vd := run_presses sample_fs "photos"
              (state_after (script_run sample_fs None "photos" None "t0"))
              [(ButtonNo, "t1"); (ButtonUndecided, "t2")] in
  state_of vd = Complete
  ∧ current_pair vd = 2
  ∧ decisions vd =
      [ {| property_id := "12"; decision := "No"; timestamp := "t1" |};
        {| property_id := "30"; decision := "No Decision"; timestamp := "t2" |} ].
Proof.
  destruct (recording_decisions sample_fs "photos" eq_refl eq_refl)
    as [_ Hall].
  destruct (Hall [(ButtonNo, "t1"); (ButtonUndecided, "t2")] "t0")
    as (Hstate & Hc & Hd & _).
  - vm_compute. reflexivity.
  - split; [exact Hstate|]. split; [exact Hc | exact Hd].
Defined.

(** C7.  In every state the script can reach with a folder chosen, the
    session is in the state [Complete] exactly when the cursor is at the
    number of pairs, and the completion flag is set only then.  After a run
    with the folder of the session in the text input, the folder there and
    pairs in it, the flag is set exactly in the state [Complete].  In the
    state [Complete] a run with any button, and with the text input empty
    or unchanged, leaves the cursor, the log and the pairs as they are.  A
    run with another folder in the text input puts the cursor at 0 and
    empties the log. *)
Theorem session_complete_is_terminal :
  (∀ vd, reachable vd →
     (is_Some (folder_path vd) →
      state_of vd = Complete ↔ current_pair vd = length (image_pairs vd))
     ∧ (verification_complete vd = true → state_of vd = Complete))
  ∧ (∀ vd fs folder clicked now,
       reachable vd → truthy folder = true → folder_path vd = Some folder →
       path_exists fs folder = true → image_pairs vd ≠ [] →
       let vd' := state_after (script_run fs (Some vd) folder clicked now) in
       verification_complete vd' = true ↔ state_of vd' = Complete)
  ∧ (∀ vd fs input clicked now,
       state_of vd = Complete →
       input = "" ∨ folder_path vd = Some input →
       let vd' := state_after (script_run fs (Some vd) input clicked now) in
       current_pair vd' = current_pair vd
       ∧ decisions vd' = decisions vd
       ∧ image_pairs vd' = image_pairs vd
       ∧ state_of vd' = Complete)
  ∧ (∀ vd fs input now,
       truthy input = true → folder_path vd ≠ Some input →
       let vd' := state_after (script_run fs (Some vd) input None now) in
       current_pair vd' = 0 ∧ decisions vd' = []
       ∧ image_pairs vd' = get_image_pairs fs input
       ∧ folder_path vd' = Some input).
Proof.
  assert (Hstate : ∀ vd, session_inv vd →
            (is_Some (folder_path vd) →
             state_of vd = Complete
             ↔ current_pair vd = length (image_pairs vd))
            ∧ (verification_complete vd = true → state_of vd = Complete)).
  { intros vd (Hle & _ & Hflag).
    assert (Hiff : is_Some (folder_path vd) →
              state_of vd = Complete
              ↔ current_pair vd = length (image_pairs vd)).
    { intros [f Hf]. unfold state_of. rewrite Hf.
      destruct (Nat.ltb_spec (current_pair vd) (length (image_pairs vd)));
        split; try done; lia. }
    split; [done|]. intros Hc. destruct (Hflag Hc) as (? & _ & ?).
    by apply Hiff. }
  split_and!.
  - intros vd Hr. by apply Hstate, reachable_inv.
  - intros vd fs folder clicked now Hr Ht Hf He Hp vd'.
    pose proof (reachable_inv _ (reachable_run fs _ folder clicked now Hr))
      as Hinv'. fold vd' in Hinv'.
    destruct (Hstate vd' Hinv') as [Hiff' Hflag'].
    split; [done|]. unfold vd' in *. clear vd' Hinv' Hflag'.
    apply reachable_inv in Hr as (Hle & _ & Hflag).
    destruct (Nat.leb_spec (length (image_pairs vd)) (current_pair vd)).
    + by rewrite script_run_past_end.
    + destruct (image_pairs vd !! current_pair vd) as [p|] eqn:Hcur;
        [|apply lookup_ge_None in Hcur; lia].
      destruct clicked as [b|].
      * rewrite (script_run_press _ _ _ _ _ p) in * by done. cbv zeta in *.
        destruct (Nat.leb_spec (length (image_pairs vd)) (current_pair vd + 1));
          [done|].
        intros Hst. apply Hiff' in Hst; simpl in *; [lia | by rewrite Hf].
      * unfold script_run in *. rewrite main_same_folder in * by done.
        destruct (Nat.leb_spec (length (image_pairs vd)) (current_pair vd));
          [lia|]. rewrite Hcur in *. unfold state_after in *; simpl in *.
        intros Hst. apply Hiff' in Hst; [lia | by rewrite Hf].
  - intros vd fs input clicked now Hst Hin vd'.
    assert (∃ f, folder_path vd = Some f
                 ∧ length (image_pairs vd) ≤ current_pair vd) as (f & Hf & Hle).
    { unfold state_of in Hst. destruct (folder_path vd) as [f|]; [|done].
      exists f. split; [done|].
      destruct (Nat.ltb_spec (current_pair vd) (length (image_pairs vd)));
        [done | lia]. }
    assert (Hsame : vd' = vd ∨ vd' = set_complete vd).
    { unfold vd', script_run, main.
      change (default initial_data (Some vd)) with vd.
      destruct (truthy input) eqn:Ht; [|by left].
      destruct Hin as [->|Hin]; [done|].
      rewrite Hin. rewrite bool_decide_eq_true_2 by done. cbn [negb andb].
      destruct (path_exists fs input); cbn [negb]; [|by left].
      destruct (is_nil (image_pairs vd)); [by left|].
      destruct (Nat.leb_spec (length (image_pairs vd)) (current_pair vd));
        [by right | lia]. }
    destruct Hsame as [-> | ->]; [done|]. by split_and!.
  - intros vd fs input now Ht Hf vd'. unfold vd', script_run, main.
    change (default initial_data (Some vd)) with vd.
    rewrite Ht. rewrite bool_decide_eq_false_2 by congruence.
    cbn [negb andb].
    destruct (path_exists fs input); cbn [negb]; [|done].
    cbn [image_pairs current_pair].
    destruct (get_image_pairs fs input) as [|p ps]; [done|].
    cbn [is_nil length Nat.leb lookup list_lookup].
    done.
Qed.

Lemma session_complete_is_terminal_witness :
  let vd := run_presses sample_fs "photos"
              (state_after (script_run sample_fs None "photos" None "t0"))
              [(ButtonNo, "t1"); (ButtonUndecided, "t2")] in
  let vd' := state_after
               (script_run sample_fs (Some vd) "photos" (Some ButtonYes) "t3") in
  state_of vd = Complete
  ∧ current_pair vd' = current_pair vd
  ∧ decisions vd' = decisions vd.
Proof.
  intros vd vd'. split; [vm_compute; reflexivity|].
  destruct session_complete_is_terminal as (_ & _ & Hterminal & _).
  destruct (Hterminal vd sample_fs "photos" (Some ButtonYes) "t3")
    as (Hc & Hd & _).
  - vm_compute. reflexivity.
  - right. vm_compute. reflexivity.
  - split; [exact Hc | exact Hd].
Defined.

(** A folder without a complete pair: the script stops at its message and
    the session never becomes complete. *)
Lemma no_pairs_never_complete (fs : file_system) (folder : string)
    (vd : verification_data) (clicked : option button) (now : string) :
  truthy folder = true → path_exists fs folder = true →
  folder_path vd = Some folder → image_pairs vd = [] →
  verification_complete vd = false →
  script_run fs (Some vd) folder clicked now = (vd, ViewNoValidPairs, Finished).
Proof.
  intros Ht He Hf Hp Hflag. unfold script_run, main.
  change (default initial_data (Some vd)) with vd.
  rewrite Ht, Hf, He. rewrite bool_decide_eq_true_2 by done.
  cbn [negb andb]. by rewrite Hp.
Qed.

End SessionClaims.

(** ** The model on concrete inputs *)

Module Examples.
Import rdn_photo_comparison verification_app EngineForms EngineFacts
  VerificationForms FlatPrims.

Example basename_of_path : PyStr.basename "uploads/ref/a.jpg" = "a.jpg".
Proof. reflexivity. Qed.

Example basename_plain : PyStr.basename "a.jpg" = "a.jpg".
Proof. reflexivity. Qed.

Example join_adds_slash : PyStr.join "photos" "12_proof.png" = "photos/12_proof.png".
Proof. reflexivity. Qed.

Example join_keeps_slash : PyStr.join "photos/" "12_proof.png" = "photos/12_proof.png".
Proof. reflexivity. Qed.

Example lower_ascii_only : PyStr.lower "Ab_ORIGINAL.JPeG" = "ab_original.jpeg".
Proof. reflexivity. Qed.

Example split_takes_first_marker :
  PyStr.before_first "_original" "7_original_b_original.jpg" = "7".
Proof. reflexivity. Qed.

Example original_wins : role_of "7_proof_original.jpg" = Some ("original", "7_proof").
Proof. reflexivity. Qed.

Example marker_is_case_sensitive : role_of "7_ORIGINAL.jpg" = None.
Proof. reflexivity. Qed.

Example extension_is_not : role_of "7_proof.JPG" = Some ("proof", "7").
Proof. reflexivity. Qed.

Example not_an_image : role_of "9_original.gif" = None.
Proof. reflexivity. Qed.

Example class_high : get_similarity_class (81 # 100) = "similarity-high".
Proof. reflexivity. Qed.

Example class_at_08 : get_similarity_class (8 # 10) = "similarity-medium".
Proof. reflexivity. Qed.

Example class_at_06 : get_similarity_class (6 # 10) = "similarity-low".
Proof. reflexivity. Qed.

Example match_at_075 : is_match (75 # 100) = false.
Proof. reflexivity. Qed.

(** An RGB image of 8 by 9 against an RGBA image of 12 by 7: the three
    images returned are 8 wide and 7 high, with three channels. *)
Example colour_pair_sizes :
  (λ c : comparison, (shape <$> c.1.1.2, shape <$> c.1.2, shape <$> c.2))
    (compare_images rgb_8x9 rgba_12x7)
  = (Some (Shape3 7 8 3), Some (Shape3 7 8 3), Some (Shape3 7 8 3)).
Proof. vm_compute. reflexivity. Qed.

Example grayscale_against_colour :
  compare_images gray_10x10 rgba_12x7 = (None, None, None, None).
Proof. vm_compute. reflexivity. Qed.

(** Colour images smaller than the window of the metric are rejected
    too. *)
Lemma compare_images_small_rejected `{CvPrims} (a1 a2 : ndarray) :
  common_height a1 a2 < win_size ∨ common_width a1 a2 < win_size →
  compare_images (Array a1) (Array a2) = (None, None, None, None).
Proof.
  intros Hsmall. rewrite compare_images_eq. cbn [to_array ok].
  destruct (engine_ok a1 a2) eqn:Hok; [|done].
  apply engine_ok_elim in Hok as (_ & _ & ? & ?). lia.
Qed.

Example colour_6x6 :
  compare_images (sample_image RGB 6 6 [1]%Z) (sample_image RGB 6 6 [1]%Z)
  = (None, None, None, None).
Proof. vm_compute. reflexivity. Qed.

(** An image the engine accepts, compared with itself: the metric is given
    the same grayscale array twice. *)
Lemma compare_images_identical_arrays `{CvPrims} (i : image) (a : ndarray) :
  to_array i = inr a → engine_ok a a = true →
  let g := gray_at a (common_width a a) (common_height a a) in
  score_of (compare_images i i) = Some (ssim_score (shape g) (buf g) (buf g)).
Proof.
  intros Ha Hok g. rewrite compare_images_eq, Ha, Hok. reflexivity.
Qed.

Example batch_abc_bcd :
  (λ o, match o with
        | BatchCompleted results s => Some (filename <$> results, total s)
        | _ => None
        end) (batch_comparison reference_abc field_bcd)
  = Some (["B"; "C"], 2).
Proof. vm_compute. reflexivity. Qed.

Example first_run_shows_first_pair :
  (script_run sample_fs None "photos" None "t0").1.2
  = ViewPair {| id := "12"; original := "photos/12_original.jpg";
                proof := "photos/12_proof.PNG" |} 1 2.
Proof. vm_compute. reflexivity. Qed.

Example missing_folder :
  (script_run sample_fs None "elsewhere" None "t0").1.2 = ViewFolderMissing.
Proof. vm_compute. reflexivity. Qed.

End Examples.

(** ** Further properties of the similarity engine *)

Module EngineExtras.
Import rdn_photo_comparison EngineForms EngineFacts MoreForms.


(** X2.  When [compare_images] returns a score for two Pillow images, the
    three images it returns have three channels, the smaller of the two
    heights and the smaller of the two widths; so none is larger than
    either argument. *)
Theorem compare_images_common_size `{CvPrims} (im1 im2 : pil_image)
    (score : Q) (out1 out2 out3 : option ndarray) :
  compare_images (PILImage im1) (PILImage im2) = (Some score, out1, out2, out3) →
  let h := (size im1).2 `min` (size im2).2 in
  let w := (size im1).1 `min` (size im2).1 in
  ∃ o1 o2 o3,
    out1 = Some o1 ∧ out2 = Some o2 ∧ out3 = Some o3
    ∧ shape o1 = Shape3 h w 3 ∧ shape o2 = Shape3 h w 3
    ∧ shape o3 = Shape3 h w 3
    ∧ h ≤ (size im1).2 ∧ h ≤ (size im2).2
    ∧ w ≤ (size im1).1 ∧ w ≤ (size im2).1.
Proof.
  intros Hrun h w.
  destruct (to_array (PILImage im1)) as [|a1] eqn:Ha1.
  { rewrite compare_images_eq, Ha1 in Hrun. done. }
  destruct (to_array (PILImage im2)) as [|a2] eqn:Ha2.
  { rewrite compare_images_eq, Ha1, Ha2 in Hrun. done. }
  destruct (compare_images_output_shape _ _ _ _ _ _ _ _ Ha1 Ha2 Hrun)
    as (o1 & o2 & o3 & -> & -> & -> & Hs1 & Hs2 & Hs3).
  assert (Hdim : ∀ im a, to_array (PILImage im) = inr a →
            shape0 (shape a) = (size im).2 ∧ shape1 (shape a) = (size im).1).
  { intros im a. simpl. unfold np_array.
    destruct (data im); [|done]. destruct (size im) as [wi hi].
    intros [= <-]; simpl. by destruct (_ =? _). }
  destruct (Hdim _ _ Ha1) as [Hh1 Hw1]. destruct (Hdim _ _ Ha2) as [Hh2 Hw2].
  unfold common_height, common_width in *.
  rewrite Hh1, Hh2, Hw1, Hw2 in *.
  exists o1, o2, o3. unfold h, w. split_and!; try done; lia.
Qed.

Lemma compare_images_common_size_witness :
  ∃ o1 o2 o3,
    compare_images (PILImage FlatPrims.good_photo)
                   (PILImage FlatPrims.truncated_photo)
    = (None, None, None, None)
    ∧ compare_images (PILImage FlatPrims.good_photo)
                     (PILImage FlatPrims.good_photo)
      = (Some 1%Q, Some o1, Some o2, Some o3)
    ∧ shape o1 = Shape3 9 8 3 ∧ shape o2 = Shape3 9 8 3
    ∧ shape o3 = Shape3 9 8 3.
Proof.
  destruct (compare_images (PILImage FlatPrims.good_photo)
                           (PILImage FlatPrims.good_photo))
    as [[[sc out1] out2] out3] eqn:Hrun.
  assert (Hsc : sc = Some 1%Q) by (vm_compute in Hrun; congruence).
  subst sc.
  destruct (compare_images_common_size _ _ _ _ _ _ Hrun)
    as (o1 & o2 & o3 & -> & -> & -> & Hs1 & Hs2 & Hs3 & _).
  exists o1, o2, o3. split; [vm_compute; reflexivity|]. by split_and!.
Defined.

(** X3.  Only contours of an area above 100 leave a mark: drawing over a
    list of contours is drawing over those of them with such an area; and
    when no contour found has an area above 100, the annotated image is the
    second image returned, unchanged. *)
Theorem compare_images_noise_filter `{CvPrims} :
  (∀ img cs,
     foldl draw_if_significant img cs
     = foldl draw_if_significant img (List.filter significant cs))
  ∧ (∀ a1 a2,
       engine_ok a1 a2 = true →
       Forall (λ c, (contourArea c <= 100)%Q) (found_contours a1 a2) →
       ∃ score o1 o2,
         compare_images (Array a1) (Array a2)
         = (Some score, Some o1, Some o2, Some o2)).
Proof.
  assert (Hquiet : ∀ img cs,
            Forall (λ c, (contourArea c <= 100)%Q) cs →
            foldl draw_if_significant img cs = img).
  { intros img cs Hcs. revert img.
    induction Hcs as [|c cs Hc _ IH]; intros img; simpl; [done|].
    rewrite <- (IH img) at 2. f_equal. unfold draw_if_significant, Qgtb.
    apply Qle_bool_iff in Hc. by rewrite Hc. }
  split.
  - intros img cs. revert img.
    induction cs as [|c cs IH]; intros img; simpl; [done|].
    unfold significant at 1.
    destruct (Qgtb (contourArea c) 100) eqn:Hc; simpl.
    + by rewrite IH.
    + rewrite <- IH. f_equal. unfold draw_if_significant. by rewrite Hc.
  - intros a1 a2 Hok Hcs.
    rewrite compare_images_eq. cbn [to_array ok]. rewrite Hok.
    unfold engine_value. fold (found_contours a1 a2).
    rewrite (Hquiet _ _ Hcs). eauto.
Qed.

Lemma compare_images_noise_filter_witness :
  ∃ score o1 o2,
    compare_images (Array (flat_array (Shape3 9 8 3) [1; 2; 3]%Z))
                   (Array (flat_array (Shape3 7 12 4) [4; 5]%Z))
    = (Some score, Some o1, Some o2, Some o2).
Proof.
  destruct (compare_images_noise_filter (H := FlatPrims.flat_prims))
    as [_ Hquiet].
  refine (Hquiet (flat_array (Shape3 9 8 3) [1; 2; 3]%Z)
                 (flat_array (Shape3 7 12 4) [4; 5]%Z) _ _).
  - vm_compute. reflexivity.
  - vm_compute. constructor.
Defined.

End EngineExtras.

(** ** Further properties of the classifiers and of the batch branch *)

Module BatchExtras.
Import rdn_photo_comparison EngineForms EngineFacts BatchFacts MoreForms.
Import ClassifierClaims.

(** X4.  The CSS class follows the score: a score that is not smaller never
    gets a lower class, and every score gets one of the three classes. *)
Theorem get_similarity_class_monotone (s1 s2 : Q) :
  (s1 <= s2)%Q →
  label_rank (get_similarity_class s1) ≤ label_rank (get_similarity_class s2)
  ∧ get_similarity_class s1
    ∈ ["similarity-high"; "similarity-medium"; "similarity-low"].
Proof.
  intros Hle. unfold get_similarity_class.
  destruct (Qgtb s1 (8 # 10)) eqn:H1; case_threshold H1;
    destruct (Qgtb s1 (6 # 10)) eqn:H2; case_threshold H2;
    destruct (Qgtb s2 (8 # 10)) eqn:H3; case_threshold H3;
    destruct (Qgtb s2 (6 # 10)) eqn:H4; case_threshold H4;
    (split; [first [by (vm_compute; lia) | exfalso; lra] | set_solver]).
Qed.

Lemma get_similarity_class_monotone_witness :
  label_rank (get_similarity_class (61 # 100))
  ≤ label_rank (get_similarity_class (9 # 10)).
Proof.
  refine (proj1 (get_similarity_class_monotone (61 # 100) (9 # 10) _)).
  unfold Qle; simpl; lia.
Defined.

Section Batch.
Context `{CvPrims}.

(** One turn of the loop, once the two files are found. *)
Lemma batch_step_eq (rd fd : gmap string uploaded_file)
    (acc : list batch_result) (n : string) (rf ff : uploaded_file) :
  rd !! n = Some rf → fd !! n = Some ff →
  batch_step rd fd acc n =
  match content rf, content ff with
  | Some ref_img, Some field_img =>
      let '(score, _, _, diff_img) :=
        compare_images (PILImage ref_img) (PILImage field_img) in
      match score with
      | Some score =>
          ok (acc ++ [ {| filename := n; score := score;
                          match_ := is_match score; diff_img := diff_img |} ])
      | None => ok acc
      end
  | _, _ => raise UnidentifiedImageError
  end.
Proof.
  intros Hrf Hff. unfold batch_step, getitem, Image_open.
  rewrite Hrf, Hff. rewrite !result_bind_ok.
  destruct (content rf) as [ri|]; [|reflexivity]. rewrite !result_bind_ok.
  destruct (content ff) as [fi|]; [|reflexivity]. by rewrite result_bind_ok.
Qed.


(** What the loop collects, when it ends: results of the names of the
    list, each a genuine comparison, one for every name whose comparison
    returns a score. *)
Lemma batch_loop_results (rd fd : gmap string uploaded_file)
    (names : list string) (acc results : list batch_result) :
  Forall (λ n, is_Some (rd !! n) ∧ is_Some (fd !! n)) names →
  batch_loop rd fd acc names = inr results →
  ∃ new, results = acc ++ new
         ∧ (filename <$> new) `sublist_of` names
         ∧ Forall (genuine rd fd) new
         ∧ ∀ n, n ∈ names → comparison_succeeds rd fd n →
                n ∈ filename <$> new.
Proof.
  intros Hnames. revert acc.
  induction Hnames as [|n names [[rf Hrf] [ff Hff]] _ IH]; intros acc.
  - simpl. intros [= <-]. exists []. rewrite app_nil_r.
    split_and!; [done..|]. by intros ? ?%not_elem_of_nil.
  - cbn [batch_loop]. rewrite (batch_step_eq _ _ _ _ _ _ Hrf Hff).
    destruct (content rf) as [ri|] eqn:Hri; [|done].
    destruct (content ff) as [fi|] eqn:Hfi; [|done].
    destruct (compare_images (PILImage ri) (PILImage fi))
      as [[[[sc|] o1] o2] o3] eqn:Hcmp; rewrite result_bind_ok.
    + intros (new & -> & Hsub & Hgen & Hall)%IH.
      exists ({| filename := n; score := sc; match_ := is_match sc;
                 diff_img := o3 |} :: new).
      rewrite <- app_assoc. split_and!.
      * done.
      * rewrite fmap_cons. by apply sublist_skip.
      * constructor; [|done]. exists rf, ff, ri, fi, o1, o2. by split_and!.
      * intros m [->|Hm]%elem_of_cons Hok; rewrite fmap_cons.
        -- by left.
        -- right. by apply Hall.
    + intros (new & -> & Hsub & Hgen & Hall)%IH.
      exists new. split_and!; [done | by apply sublist_cons | done |].
      intros m [->|Hm]%elem_of_cons Hok; [|by apply Hall].
      destruct Hok as (rf' & ff' & ri' & fi' & Hrf' & Hff' & Hri' & Hfi' & [s Hs]).
      simplify_eq. rewrite Hcmp in Hs. done.
Qed.

(** The names the loop is run on are keys of both dicts. *)
Lemma sorted_common_found (rd fd : gmap string uploaded_file) :
  Forall (λ n, is_Some (rd !! n) ∧ is_Some (fd !! n))
         (sorted (common_files rd fd)).
Proof.
  apply Forall_forall. intros n Hn.
  apply elem_of_sorted in Hn. unfold common_files in Hn.
  apply elem_of_intersection in Hn as [Hr Hf].
  by split; apply elem_of_dom.
Qed.

Lemma common_files_empty (ref_files field_files : list uploaded_file) :
  common_files (file_dict ref_files) (file_dict field_files) = ∅ ↔
  ∀ n, ¬ (n ∈ basenames ref_files ∧ n ∈ basenames field_files).
Proof.
  unfold common_files. split.
  - intros Hempty n [Hr Hf].
    apply elem_of_dom_file_dict in Hr. apply elem_of_dom_file_dict in Hf.
    set_solver.
  - intros Hnone. apply set_eq. intros n.
    rewrite elem_of_intersection, !elem_of_dom_file_dict.
    split; [intros ?; by destruct (Hnone n) | set_solver].
Qed.

(** A sublist of a sorted list is sorted. *)
Lemma sublist_StronglySorted {A} (R : relation A) (l1 l2 : list A) :
  l1 `sublist_of` l2 → StronglySorted R l2 → StronglySorted R l1.
Proof.
  induction 1 as [|x l1 l2 Hsub IH|x l1 l2 Hsub IH]; [done|..].
  - intros [Hs Hx]%StronglySorted_inv. constructor; [by apply IH|].
    apply Forall_forall. intros y Hy.
    rewrite Forall_forall in Hx. apply Hx. by eapply elem_of_sublist.
  - intros [Hs _]%StronglySorted_inv. by apply IH.
Qed.

(** A completed batch, taken apart. *)
Lemma batch_completed_inv (ref_files field_files : list uploaded_file)
    (results : list batch_result) (s : summary) :
  batch_comparison ref_files field_files = BatchCompleted results s →
  ref_files ≠ [] ∧ field_files ≠ []
  ∧ common_files (file_dict ref_files) (file_dict field_files) ≠ ∅
  ∧ batch_loop (file_dict ref_files) (file_dict field_files) []
      (sorted (common_files (file_dict ref_files) (file_dict field_files)))
    = inr results
  ∧ results ≠ [] ∧ s = summary_of results.
Proof.
  unfold batch_comparison.
  destruct ref_files as [|rf ref_files]; [done|].
  destruct field_files as [|ff field_files]; [done|]. cbn [is_nil orb].
  case_bool_decide as Hc; [done|].
  destruct (batch_loop _ _ _ _) as [|rs]; [done|].
  rewrite summary_statistics_eq. destruct rs as [|r rs]; [done|].
  intros [= <- <-]. by split_and!.
Qed.

End Batch.

(** X5.  The dict built from an upload maps a name to the last file of the
    upload with that base name, and to nothing when there is none. *)
Theorem file_dict_last_wins `{CvPrims} (files : list uploaded_file) (n : string) :
  file_dict files !! n
  = last (filter (λ f, PyStr.basename (name f) = n) files).
Proof.
  unfold file_dict.
  assert (Hgen : ∀ d : gmap string uploaded_file,
            foldl (λ d f, <[PyStr.basename (name f) := f]> d) d files !! n
            = match last (filter (λ f, PyStr.basename (name f) = n) files) with
              | Some f => Some f
              | None => d !! n
              end).
  { induction files as [|f files IH]; intros d; [done|].
    cbn [foldl]. rewrite IH, filter_cons.
    destruct (decide (PyStr.basename (name f) = n)) as [<-|Hne].
    - rewrite last_cons. destruct (last _); [done|].
      by rewrite lookup_insert_eq.
    - destruct (last _); [done|]. by rewrite lookup_insert_ne. }
  rewrite Hgen, lookup_empty. by destruct (last _).
Qed.

(** X6.  A batch run ends with "No matching filenames" exactly when both
    uploads have files and no base name is in both; and it does nothing
    exactly when one of the uploads is empty. *)
Theorem batch_no_matching_filenames `{CvPrims}
    (ref_files field_files : list uploaded_file) :
  (batch_comparison ref_files field_files = NoMatchingFilenames ↔
   ref_files ≠ [] ∧ field_files ≠ []
   ∧ ∀ n, ¬ (n ∈ basenames ref_files ∧ n ∈ basenames field_files))
  ∧ (batch_comparison ref_files field_files = NothingUploaded ↔
     ref_files = [] ∨ field_files = []).
Proof.
  unfold batch_comparison.
  destruct ref_files as [|rf ref_files].
  { split; split; try done; [by intros (? & _) | by left]. }
  destruct field_files as [|ff field_files].
  { split; split; try done; [by intros (_ & ? & _) | by right]. }
  cbn [is_nil orb]. rewrite <- common_files_empty.
  case_bool_decide as Hc.
  - split; split; try done; by intros [?|?].
  - split; split.
    + destruct (batch_loop _ _ _ _) as [|rs]; [done|].
      by destruct (summary_statistics rs).
    + by intros (_ & _ & ?).
    + destruct (batch_loop _ _ _ _) as [|rs]; [done|].
      by destruct (summary_statistics rs).
    + by intros [?|?].
Qed.


(** X8.  The results of a completed batch come in the order of their file
    names, no name twice; each is what [compare_images] returns for the two
    files of its name, with the match flag of its score; and every common
    name whose comparison returns a score has its result. *)
Theorem batch_results_genuine `{CvPrims}
    (ref_files field_files : list uploaded_file)
    (results : list batch_result) (s : summary) :
  batch_comparison ref_files field_files = BatchCompleted results s →
  let rd := file_dict ref_files in
  let fd := file_dict field_files in
  StronglySorted String.le (filename <$> results)
  ∧ NoDup (filename <$> results)
  ∧ Forall (genuine rd fd) results
  ∧ (∀ n, n ∈ basenames ref_files → n ∈ basenames field_files →
          comparison_succeeds rd fd n → n ∈ filename <$> results).
Proof.
  intros (_ & _ & _ & Hloop & _ & _)%batch_completed_inv rd fd.
  apply batch_loop_results in Hloop as (new & -> & Hsub & Hgen & Hall);
    [|apply sorted_common_found].
  cbn [app]. split_and!.
  - eapply sublist_StronglySorted; [done | apply Sorted_sorted].
  - eapply sublist_NoDup; [apply NoDup_sorted | done].
  - done.
  - intros n Hr Hf Hok. apply Hall; [|done].
    apply elem_of_sorted. unfold common_files. apply elem_of_intersection.
    by split; apply elem_of_dom_file_dict.
Qed.

Lemma batch_results_genuine_witness :
  NoDup (filename <$> FlatPrims.results_ab)
  ∧ Forall (genuine (file_dict FlatPrims.reference_ab)
                    (file_dict FlatPrims.field_ab)) FlatPrims.results_ab.
Proof.
  destruct (batch_results_genuine FlatPrims.reference_ab FlatPrims.field_ab
              FlatPrims.results_ab (summary_of FlatPrims.results_ab))
    as (_ & Hnd & Hgen & _).
  - vm_compute. reflexivity.
  - by split.
Defined.

(** X9.  The figures of a summary: at least one result, no more matches
    than results, matches and non-matches add up to the total, and the
    percentage lies between 0 and 100. *)
Theorem summary_statistics_bounds `{CvPrims}
    (results : list batch_result) (s : summary) :
  summary_statistics results = inr s →
  total s = length results ∧ 0 < total s
  ∧ matched s ≤ total s
  ∧ matched s + non_matching s = total s
  ∧ (0 <= percentage s)%Q ∧ (percentage s <= 100)%Q.
Proof.
  rewrite summary_statistics_eq. destruct results as [|r rs]; [done|].
  intros [= <-]. unfold summary_of. cbn [total matched non_matching percentage].
  set (t := length (r :: rs)).
  set (m := length (List.filter match_ (r :: rs))).
  assert (Hm : m ≤ t) by apply List.filter_length_le.
  assert (Ht : 0 < t) by (unfold t; simpl; lia).
  assert (Htq : (0 < inject_Z (Z.of_nat t))%Q).
  { unfold Qlt; simpl. lia. }
  assert (Hmq : (0 <= inject_Z (Z.of_nat m))%Q).
  { unfold Qle; simpl. lia. }
  assert (Hmt : (inject_Z (Z.of_nat m) <= inject_Z (Z.of_nat t))%Q).
  { unfold Qle; simpl. lia. }
  split_and!; [done | done | done | lia | |].
  - apply Qmult_le_0_compat; [|done].
    apply Qle_shift_div_l; [done|]. by rewrite Qmult_0_l.
  - assert (Hratio : (inject_Z (Z.of_nat m) / inject_Z (Z.of_nat t) <= 1)%Q).
    { apply Qle_shift_div_r; [done|]. by rewrite Qmult_1_l. }
    lra.
Qed.

Lemma summary_statistics_bounds_witness :
  ∃ s, summary_statistics FlatPrims.results_ab = inr s
       ∧ matched s ≤ total s ∧ (percentage s <= 100)%Q.
Proof.
  exists (summary_of FlatPrims.results_ab).
  destruct (summary_statistics_bounds (H := FlatPrims.flat_prims)
              FlatPrims.results_ab (summary_of FlatPrims.results_ab) eq_refl)
    as (_ & _ & Hm & _ & _ & Hp).
  by split_and!.
Defined.

(** X10.  In the detailed results of a completed batch a result shown with
    the class of high similarity carries the check mark, and one shown with
    the class of low similarity does not. *)
Theorem detailed_results_consistent `{CvPrims}
    (ref_files field_files : list uploaded_file)
    (results : list batch_result) (s : summary) :
  batch_comparison ref_files field_files = BatchCompleted results s →
  ∀ n cls mark,
    (n, cls, mark) ∈ detailed_results results →
    (cls = "similarity-high" → mark = true)
    ∧ (cls = "similarity-low" → mark = false).
Proof.
  intros (_ & _ & _ & Hloop & _ & _)%batch_completed_inv n cls mark.
  apply (batch_loop_match_flag _ _ _ []) in Hloop; [|done].
  unfold detailed_results. intros (r & [= -> -> ->] & Hr)%list_elem_of_fmap.
  rewrite Forall_forall in Hloop. rewrite (Hloop r Hr).
  unfold get_similarity_class, is_match.
  destruct (Qgtb (score r) (8 # 10)) eqn:H8; case_threshold H8;
    destruct (Qgtb (score r) (6 # 10)) eqn:H6; case_threshold H6;
    destruct (Qgtb (score r) (75 # 100)) eqn:H75; case_threshold H75;
    split; try done; intros _; exfalso; lra.
Qed.

Lemma detailed_results_consistent_witness :
  ("A", "similarity-high", true) ∈ detailed_results FlatPrims.results_ab
  ∧ ("similarity-high" = "similarity-low" → true = false).
Proof.
  assert (Hrow : ("A", "similarity-high", true)
                 ∈ detailed_results FlatPrims.results_ab)
    by (vm_compute; by left).
  split; [exact Hrow|].
  refine (proj2 (detailed_results_consistent
            FlatPrims.reference_ab FlatPrims.field_ab
            FlatPrims.results_ab (summary_of FlatPrims.results_ab) _
            "A" "similarity-high" true Hrow)).
  vm_compute. reflexivity.
Defined.

(** The dict of an upload, as the map of its files listed last to first. *)
Lemma file_dict_list_to_map `{CvPrims} (files : list uploaded_file) :
  file_dict files
  = list_to_map (reverse ((λ f, (PyStr.basename (name f), f)) <$> files)).
Proof.
  unfold file_dict. induction files as [|f files IH] using rev_ind; [done|].
  by rewrite foldl_app, fmap_app, reverse_app, IH.
Qed.

(** X11.  With no base name twice in an upload, the order of the files in
    the uploads does not matter to a batch run. *)
Theorem batch_upload_order `{CvPrims}
    (ref_files ref_files' field_files field_files' : list uploaded_file) :
  ref_files ≡ₚ ref_files' → field_files ≡ₚ field_files' →
  NoDup (basenames ref_files) → NoDup (basenames field_files) →
  batch_comparison ref_files field_files
  = batch_comparison ref_files' field_files'.
Proof.
  assert (Hdict : ∀ l l' : list uploaded_file,
            l ≡ₚ l' → NoDup (basenames l) → file_dict l = file_dict l').
  { intros l l' Hp Hnd. rewrite !file_dict_list_to_map.
    apply list_to_map_proper.
    - rewrite fmap_reverse, reverse_Permutation, <- list_fmap_compose.
      exact Hnd.
    - by rewrite !reverse_Permutation, Hp. }
  assert (Hnil : ∀ l l' : list uploaded_file, l ≡ₚ l' → is_nil l = is_nil l').
  { intros l l' Hp. destruct l, l'; try done.
    - by apply Permutation_nil_cons in Hp.
    - symmetry in Hp. by apply Permutation_nil_cons in Hp. }
  intros Hr Hf Hnr Hnf. unfold batch_comparison.
  by rewrite (Hnil _ _ Hr), (Hnil _ _ Hf), (Hdict _ _ Hr Hnr), (Hdict _ _ Hf Hnf).
Qed.

Lemma batch_upload_order_witness :
  batch_comparison FlatPrims.reference_abc FlatPrims.field_bcd
  = batch_comparison (reverse FlatPrims.reference_abc)
                     (reverse FlatPrims.field_bcd).
Proof.
  apply batch_upload_order.
  - by rewrite reverse_Permutation.
  - by rewrite reverse_Permutation.
  - vm_compute. repeat (constructor; [set_solver|]). constructor.
  - vm_compute. repeat (constructor; [set_solver|]). constructor.
Defined.

End BatchExtras.

(** ** Further properties of the path and name handling *)

Module PyStrExtras.
Import PyStr PyStrFacts verification_app VerificationForms.

Lemma append_assoc (a b c : string) : (a +:+ b) +:+ c = a +:+ b +:+ c.
Proof.
  induction a as [|x a IH]; [done|].
  change (String x ((a +:+ b) +:+ c) = String x (a +:+ b +:+ c)).
  by rewrite IH.
Qed.

Lemma append_nil_r (a : string) : a +:+ "" = a.
Proof.
  induction a as [|x a IH]; [done|].
  change (String x (a +:+ "") = String x a). by rewrite IH.
Qed.

Lemma startswith_char (a c : ascii) (s : string) :
  startswith (String a "") (String c s) = bool_decide (a = c).
Proof.
  unfold startswith; simpl. destruct (Ascii.ascii_dec a c) as [->|Hne].
  - rewrite bool_decide_eq_true_2 by done. by destruct s.
  - by rewrite bool_decide_eq_false_2.
Qed.

Lemma contains_slash_cons (c : ascii) (s : string) :
  contains "/" (String c s) = bool_decide (c = "/"%char) || contains "/" s.
Proof.
  cbn [contains]. rewrite startswith_char. f_equal.
  apply bool_decide_ext. split; congruence.
Qed.

Lemma basename_cons (c : ascii) (s : string) :
  basename (String c s) =
  if contains "/" s then basename s
  else if bool_decide (c = "/"%char) then s else String c s.
Proof.
  unfold basename. cbn [after_last_slash].
  destruct (contains "/" s); [done|]. by case_bool_decide.
Qed.

(** An occurrence in a string is an occurrence in any extension of it. *)
Lemma contains_app_l (sep a b : string) :
  contains sep a = true → contains sep (a +:+ b) = true.
Proof.
  induction a as [|x a IH]; cbn [contains].
  - rewrite orb_false_r. intros [r Hr]%startswith_app.
    destruct sep; [|done]. by destruct b.
  - intros [[r Hr]%startswith_app|Ha]%orb_true_iff.
    + change (String x a +:+ b) with (String x (a +:+ b)).
      cbn [contains]. apply orb_true_iff. left. apply startswith_app.
      exists (r +:+ b).
      change (String x (a +:+ b)) with (String x a +:+ b).
      by rewrite Hr, append_assoc.
    + change (String x a +:+ b) with (String x (a +:+ b)).
      cbn [contains]. apply orb_true_iff. right. by apply IH.
Qed.

Lemma contains_slash_after (d file : string) :
  contains "/" (d +:+ "/" +:+ file) = true.
Proof.
  induction d as [|x d IH].
  - change ("" +:+ "/" +:+ file) with (String "/" file).
    rewrite contains_slash_cons. by rewrite bool_decide_eq_true_2.
  - change (String x d +:+ "/" +:+ file) with (String x (d +:+ "/" +:+ file)).
    rewrite contains_slash_cons, IH. apply orb_true_r.
Qed.

Lemma basename_after_slash (d file : string) :
  contains "/" file = false → basename (d +:+ "/" +:+ file) = file.
Proof.
  intros Hfile. induction d as [|x d IH].
  - change ("" +:+ "/" +:+ file) with (String "/" file).
    rewrite basename_cons, Hfile. by rewrite bool_decide_eq_true_2.
  - change (String x d +:+ "/" +:+ file) with (String x (d +:+ "/" +:+ file)).
    by rewrite basename_cons, contains_slash_after.
Qed.

Lemma basename_no_slash (p : string) :
  contains "/" p = false → basename p = p.
Proof.
  induction p as [|c p IH]; [done|].
  rewrite contains_slash_cons, basename_cons.
  intros [Hc Hp]%orb_false_elim. by rewrite Hp, Hc.
Qed.

Lemma substring_all (s : string) : substring 0 (String.length s) s = s.
Proof. induction s as [|c s IH]; simpl; [done|]. by rewrite IH. Qed.

Lemma substring_suffix (s suf : string) (m k : nat) :
  m + k = String.length s → substring m k s = suf →
  ∃ pre, s = pre +:+ suf.
Proof.
  revert s. induction m as [|m IH]; intros s Hlen Hsub.
  - exists "". simpl in Hlen. subst k. by rewrite substring_all in Hsub.
  - destruct s as [|c s]; simpl in Hlen; [lia|].
    simpl in Hsub. destruct (IH s) as [pre ->]; [lia | done |].
    by exists (String c pre).
Qed.

Lemma endswith_app (suf s : string) :
  endswith suf s = true → ∃ pre, s = pre +:+ suf.
Proof.
  unfold endswith. intros [Hk Hs]%andb_prop.
  apply Nat.leb_le in Hk. apply bool_decide_eq_true in Hs.
  eapply substring_suffix; [|exact Hs]. lia.
Qed.

(** X12.  [os.path.basename]: the base name holds no slash; a path without
    a slash is its own base name; and the base name of the join of a folder
    and a name without a slash, as [os.listdir] gives them, is that name. *)
Theorem basename_join (folder p file : string) :
  contains "/" (basename p) = false
  ∧ (contains "/" file = false →
     basename file = file ∧ basename (join folder file) = file).
Proof.
  split.
  - induction p as [|c p IH]; [done|]. rewrite basename_cons.
    destruct (contains "/" p) eqn:Hp; [done|].
    case_bool_decide as Hc; [done|].
    rewrite contains_slash_cons, Hp. by rewrite bool_decide_eq_false_2.
  - intros Hfile. split; [by apply basename_no_slash|].
    unfold join.
    assert (startswith "/" file = false) as ->.
    { destruct file as [|c file]; [done|].
      rewrite contains_slash_cons in Hfile.
      apply orb_false_elim in Hfile as [Hc _].
      rewrite startswith_char. rewrite <- Hc.
      apply bool_decide_ext. split; congruence. }
    case_bool_decide as Hf; cbn [orb].
    + subst folder. by apply basename_no_slash.
    + destruct (endswith "/" folder) eqn:He.
      * apply endswith_app in He as [pre ->].
        rewrite append_assoc. by apply basename_after_slash.
      * by apply basename_after_slash.
Qed.

Lemma basename_join_witness :
  basename "12_proof.png" = "12_proof.png"
  ∧ basename (join "photos" "12_proof.png") = "12_proof.png".
Proof.
  refine (proj2 (basename_join "photos" "" "12_proof.png") _). reflexivity.
Defined.

(** What precedes the first occurrence is a prefix of the string. *)
Lemma before_first_prefix (sep s : string) :
  ∃ rest, s = before_first sep s +:+ rest.
Proof.
  destruct (contains sep s) eqn:Hc.
  - apply before_first_spec in Hc as [[rest Hrest] _]. by exists (sep +:+ rest).
  - exists "". by rewrite before_first_absent, append_nil_r.
Qed.

Lemma before_first_clean (sep s : string) :
  sep ≠ "" → contains sep (before_first sep s) = false.
Proof.
  intros Hsep.
  assert (Hnil : contains sep "" = false).
  { cbn [contains]. by destruct sep. }
  induction s as [|c s IH]; cbn [before_first].
  - by destruct (startswith sep "").
  - destruct (startswith sep (String c s)) eqn:Hp; [done|].
    cbn [contains]. rewrite IH, orb_false_r.
    apply not_true_is_false. intros [r Hr]%startswith_app.
    destruct (before_first_prefix sep s) as [rest Hrest].
    assert (startswith sep (String c s) = true); [|congruence].
    apply startswith_app. exists (r +:+ rest).
    rewrite <- append_assoc, <- Hr.
    change (String c (before_first sep s) +:+ rest)
      with (String c (before_first sep s +:+ rest)).
    by rewrite <- Hrest.
Qed.

(** X13.  [s.split(sep)[0]] holds no occurrence of a non-empty [sep]; so the
    identifier of an original file holds no ["_original"], and the
    identifier of a proof file holds neither ["_proof"] nor
    ["_original"]. *)
Theorem identifier_without_marker (sep s file k : string) :
  (sep ≠ "" → contains sep (before_first sep s) = false)
  ∧ (role_of file = Some ("original", k) → contains "_original" k = false)
  ∧ (role_of file = Some ("proof", k) →
     contains "_proof" k = false ∧ contains "_original" k = false).
Proof.
  split; [apply before_first_clean|].
  unfold role_of.
  destruct (endswith_any extensions (lower file)); [|done].
  destruct (contains "_original" file) eqn:Ho.
  - split; [|done]. intros [= <-]. by apply before_first_clean.
  - destruct (contains "_proof" file) eqn:Hp; [|done].
    split; [done|]. intros [= <-]. split; [by apply before_first_clean|].
    apply not_true_is_false. intros Hk.
    destruct (before_first_prefix "_proof" file) as [rest Hrest].
    apply (contains_app_l _ _ rest) in Hk. rewrite <- Hrest in Hk. congruence.
Qed.

Lemma identifier_without_marker_witness :
  PyStr.contains "_original" "7_proof" = false.
Proof.
  destruct (identifier_without_marker "_original" "" "7_proof_original.jpg"
              "7_proof") as (_ & Horiginal & _).
  apply Horiginal. reflexivity.
Defined.

End PyStrExtras.

(** ** Further properties of the folder scanner *)

Module PairingExtras.
Import verification_app VerificationForms PairingFacts MoreForms.

(** An entry of the dict after one more file: untouched under another
    identifier, with the key of the file set under the same. *)
Lemma setdefault_set_existing (d : pairs_dict) (base_id key file k : string)
    (e : gmap string string) :
  NoDup d.*1 → (k, e) ∈ d →
  (k, if bool_decide (k = base_id) then <[key := file]> e else e)
  ∈ setdefault_set d base_id key file.
Proof.
  induction d as [|[k0 e0] d IH]; simpl.
  - by intros _ ?%not_elem_of_nil.
  - intros [Hk0 Hnd]%NoDup_cons [Heq|Hin]%elem_of_cons.
    + injection Heq as -> ->. by destruct (bool_decide (k0 = base_id)); left.
    + assert (k ≠ k0).
      { intros ->. apply Hk0. apply list_elem_of_fmap. by exists (k0, e). }
      destruct (decide (k0 = base_id)) as [->|Hne].
      * rewrite (bool_decide_eq_true_2 (base_id = base_id)) by done.
        rewrite (bool_decide_eq_false_2 (k = base_id)) by done. by right.
      * rewrite (bool_decide_eq_false_2 (k0 = base_id)) by done.
        right. by apply IH.
Qed.

(** X14.  When several files of a folder have the same role and
    identifier, the one listed last is the one in the pair. *)
Theorem get_image_pairs_last_wins (fs : file_system) (folder : string)
    (l1 l2 : list string) (f key k : string) :
  listdir fs folder = inr (l1 ++ f :: l2) →
  role_of f = Some (key, k) →
  (∀ g, g ∈ l2 → role_of g ≠ Some (key, k)) →
  ∀ p, p ∈ get_image_pairs fs folder → id p = k →
       (key = "original" → original p = PyStr.join folder f)
       ∧ (key = "proof" → proof p = PyStr.join folder f).
Proof.
  intros Hls Hrole Hlater p Hp Hid.
  unfold get_image_pairs in Hp. rewrite Hls in Hp.
  rewrite foldl_app in Hp. cbn [foldl] in Hp.
  destruct (scan_files_invariant l1) as (Hnd1 & _ & _).
  set (d1 := foldl scan_file [] l1) in *.
  assert (Hstart : NoDup (scan_file d1 f).*1
                   ∧ ∃ e, (k, e) ∈ scan_file d1 f ∧ e !! key = Some f).
  { rewrite scan_file_role, Hrole. split.
    - by apply setdefault_set_NoDup.
    - apply setdefault_set_sets. }
  assert (Hend : ∀ l d,
            (∀ g, g ∈ l → role_of g ≠ Some (key, k)) →
            NoDup d.*1 ∧ (∃ e, (k, e) ∈ d ∧ e !! key = Some f) →
            NoDup (foldl scan_file d l).*1
            ∧ ∃ e, (k, e) ∈ foldl scan_file d l ∧ e !! key = Some f).
  { induction l as [|g l IH]; intros d Hl [Hnd (e & Hin & He)]; [by eauto|].
    cbn [foldl]. apply IH; [intros g' Hg'; apply Hl; by right|].
    rewrite scan_file_role.
    destruct (role_of g) as [[keyg kg]|] eqn:Hg; [|by eauto].
    split; [by apply setdefault_set_NoDup|].
    pose proof (setdefault_set_existing d kg keyg g k e Hnd Hin) as Hin'.
    eexists. split; [exact Hin'|].
    case_bool_decide as Hk; [|done].
    rewrite lookup_insert_ne; [done|].
    intros ->. subst kg. apply (Hl g); [by left | done]. }
  destruct (Hend l2 _ Hlater Hstart) as (Hnd & e & Hin & He).
  apply elem_of_valid_pairs in Hp as (e' & o & pr & Hin' & Ho & Hpr & -> & ->).
  rewrite Hid in Hin'.
  assert (e' = e) as -> by (by eapply pairs_dict_unique).
  split; intros ->; congruence.
Qed.

Lemma get_image_pairs_last_wins_witness :
  let p := {| id := "5"; original := "dir/5_original_b.jpg";
              proof := "dir/5_proof.png" |} in
  get_image_pairs twice_fs "dir" = [p]
  ∧ original p = PyStr.join "dir" "5_original_b.jpg".
Proof.
  intros p. split; [vm_compute; reflexivity|].
  refine (proj1 (get_image_pairs_last_wins twice_fs "dir"
            ["5_original_a.jpg"; "5_proof.png"] [] "5_original_b.jpg"
            "original" "5" eq_refl eq_refl _ p _ eq_refl) eq_refl).
  - by intros g ?%not_elem_of_nil.
  - vm_compute. by left.
Defined.

End PairingExtras.

(** ** Further properties of the verification session *)

Module SessionExtras.
Import verification_app VerificationForms SessionFacts MoreForms.

(** What a run without a press can do to the state, with the text input
    empty or unchanged: nothing, or set the completion flag. *)
Lemma main_quiet (fs : file_system) (vd : verification_data)
    (input : string) (now : string) :
  input = "" ∨ folder_path vd = Some input →
  ∃ v, main fs (Some vd) input None now = (vd, v, Finished)
       ∨ main fs (Some vd) input None now = (set_complete vd, v, Finished).
Proof.
  intros Hin. unfold main.
  change (default initial_data (Some vd)) with vd.
  destruct (truthy input) eqn:Ht; [|by eauto].
  destruct Hin as [->|Hf]; [done|].
  rewrite Hf. rewrite bool_decide_eq_true_2 by done. cbn [negb andb].
  destruct (path_exists fs input); cbn [negb]; [|by eauto].
  destruct (is_nil (image_pairs vd)); [by eauto|].
  destruct (Nat.leb_spec (length (image_pairs vd)) (current_pair vd));
    [by eauto|].
  destruct (image_pairs vd !! current_pair vd) as [p|] eqn:Hp; [by eauto|].
  apply lookup_ge_None in Hp. lia.
Qed.

(** A run never reads past the list of pairs. *)
Lemma main_no_crash (fs : file_system) (st : option verification_data)
    (input : string) (clicked : option button) (now : string) (e : exception) :
  (main fs st input clicked now).2 ≠ Crashed e.
Proof.
  unfold main.
  set (vd := if truthy input && negb (bool_decide (Some input = folder_path _))
             then _ else _). clearbody vd.
  destruct (truthy input); [|done].
  destruct (path_exists fs input); cbn [negb]; [|done].
  destruct (is_nil (image_pairs vd)); [done|].
  destruct (Nat.leb_spec (length (image_pairs vd)) (current_pair vd)); [done|].
  destruct (image_pairs vd !! current_pair vd) as [p|] eqn:Hp.
  - by destruct clicked.
  - apply lookup_ge_None in Hp. lia.
Qed.

(** A run without a press does not ask for a rerun. *)
Lemma main_no_press (fs : file_system) (st : option verification_data)
    (input : string) (now : string) :
  (main fs st input None now).2 = Finished.
Proof.
  pose proof (main_no_crash fs st input None now) as Hcrash.
  unfold main in *.
  set (vd := if truthy input && negb (bool_decide (Some input = folder_path _))
             then _ else _) in *. clearbody vd.
  destruct (truthy input); [|done].
  destruct (path_exists fs input); cbn [negb] in *; [|done].
  destruct (is_nil (image_pairs vd)); [done|].
  destruct (_ <=? _)%nat; [done|].
  destruct (image_pairs vd !! current_pair vd) as [p|]; [done|].
  by destruct (Hcrash IndexError).
Qed.

(** Every run keeps the invariant of the log. *)
Lemma main_log_inv (fs : file_system) (vd : verification_data)
    (input : string) (clicked : option button) (now : string) :
  log_inv vd → log_inv (state_after (main fs (Some vd) input clicked now)).
Proof.
  intros Hinv. unfold main.
  change (default initial_data (Some vd)) with vd.
  set (vd0 := if truthy input && negb (bool_decide (Some input = folder_path vd))
              then _ else vd).
  assert (Hinv0 : log_inv vd0).
  { unfold vd0. destruct (_ && _); [|done]. by split. }
  clearbody vd0. clear Hinv vd. destruct Hinv0 as [Hids Hlabels].
  destruct (truthy input); [|done].
  destruct (path_exists fs input); cbn [negb]; [|done].
  destruct (is_nil (image_pairs vd0)); [done|].
  destruct (_ <=? _)%nat; [done|].
  destruct (image_pairs vd0 !! current_pair vd0) as [p|] eqn:Hp; [|done].
  destruct clicked as [b|]; [|done].
  unfold state_after, log_inv; simpl. split.
  - rewrite Nat.add_1_r, (take_S_r _ _ p) by done.
    by rewrite !fmap_app, Hids.
  - apply Forall_app. split; [done|]. constructor; [|done].
    simpl. destruct b; set_solver.
Qed.

Lemma reachable_log_inv (vd : verification_data) : reachable vd → log_inv vd.
Proof.
  induction 1 as [|fs vd input clicked now _ IH]; [by split|].
  unfold script_run.
  pose proof (main_log_inv fs vd input clicked now IH) as H1.
  destruct (main fs (Some vd) input clicked now) as [[vd1 v] [| |e]]; try done.
  by apply main_log_inv.
Qed.

(** X15.  In every state the script can reach, the log has one record for
    each pair before the cursor and none else: the cursor is within the list
    of pairs, the log is as long as the cursor is far, the identifiers of
    the records are those of the pairs before the cursor, in order, and
    each record has one of the labels Yes, No and No Decision. *)
Theorem reachable_log (vd : verification_data) :
  reachable vd →
  current_pair vd ≤ length (image_pairs vd)
  ∧ length (decisions vd) = current_pair vd
  ∧ property_id <$> decisions vd
    = id <$> take (current_pair vd) (image_pairs vd)
  ∧ Forall (λ r, decision r ∈ ["Yes"; "No"; "No Decision"]) (decisions vd).
Proof.
  intros Hr. destruct (reachable_inv vd Hr) as (Hle & Hlen & _).
  destruct (reachable_log_inv vd Hr) as [Hids Hlabels]. done.
Qed.

Lemma reachable_log_witness :
  let vd := run_presses sample_fs "photos"
              (state_after (script_run sample_fs None "photos" None "t0"))
              [(ButtonYes, "t1")] in
  length (decisions vd) = current_pair vd
  ∧ property_id <$> decisions vd
    = id <$> take (current_pair vd) (image_pairs vd).
Proof.
  intros vd.
  destruct (reachable_log vd) as (_ & Hlen & Hids & _).
  - apply reachable_run_presses, reachable_run, reachable_initial.
  - by split.
Defined.

(** X16.  With the text input empty or unchanged, a run only ever appends
    to the log: the old log is a prefix of the new one, the cursor moves by
    at most one and never back, the pairs and the folder stay; and without
    a press the cursor and the log stay as they are. *)
Theorem log_append_only (fs : file_system) (vd : verification_data)
    (input : string) (clicked : option button) (now : string) :
  input = "" ∨ folder_path vd = Some input →
  let vd' := state_after (script_run fs (Some vd) input clicked now) in
  decisions vd `prefix_of` decisions vd'
  ∧ current_pair vd ≤ current_pair vd' ≤ current_pair vd + 1
  ∧ image_pairs vd' = image_pairs vd
  ∧ folder_path vd' = folder_path vd
  ∧ (clicked = None →
     current_pair vd' = current_pair vd ∧ decisions vd' = decisions vd).
Proof.
  intros Hin vd'.
  assert (Hquiet : ∀ v : verification_data,
            input = "" ∨ folder_path v = Some input →
            ∀ w, w = state_after (main fs (Some v) input None now) →
            decisions w = decisions v ∧ current_pair w = current_pair v
            ∧ image_pairs w = image_pairs v ∧ folder_path w = folder_path v).
  { intros v Hv w ->. destruct (main_quiet fs v input now Hv) as [x [-> | ->]];
      by unfold state_after. }
  destruct clicked as [b|].
  2:{ unfold vd', script_run.
      pose proof (main_no_press fs (Some vd) input now) as Hend.
      destruct (Hquiet vd Hin _ eq_refl) as (Hd & Hc & Hp & Hf).
      destruct (main fs (Some vd) input None now) as [[w v] r].
      simpl in Hend. subst r. unfold state_after in *; simpl in *.
      rewrite Hd, Hc. split_and!; [done | lia | lia | done | done | done]. }
  (* a press *)
  assert (Hpress : (∃ v, main fs (Some vd) input (Some b) now = (vd, v, Finished))
            ∨ (∃ v, main fs (Some vd) input (Some b) now
                    = (set_complete vd, v, Finished))
            ∨ (∃ p v, main fs (Some vd) input (Some b) now
                      = (record_decision vd p b now, v, Rerun))).
  { unfold main. change (default initial_data (Some vd)) with vd.
    destruct (truthy input) eqn:Ht; [|by eauto].
    destruct Hin as [->|Hf]; [done|].
    rewrite Hf. rewrite bool_decide_eq_true_2 by done. cbn [negb andb].
    destruct (path_exists fs input); cbn [negb]; [|by eauto].
    destruct (is_nil (image_pairs vd)); [by eauto|].
    destruct (Nat.leb_spec (length (image_pairs vd)) (current_pair vd));
      [by eauto|].
    destruct (image_pairs vd !! current_pair vd) as [p|] eqn:Hp; [by eauto 6|].
    apply lookup_ge_None in Hp. lia. }
  unfold vd', script_run.
  destruct Hpress as [[v ->]|[[v ->]|(p & v & ->)]].
  - unfold state_after; simpl. split_and!; [done | lia | lia | done | done | done].
  - unfold state_after; simpl. split_and!; [done | lia | lia | done | done | done].
  - destruct (Hquiet (record_decision vd p b now)) with
      (w := state_after (main fs (Some (record_decision vd p b now)) input None now))
      as (Hd & Hc & Hp & Hf); [by destruct Hin; [left | right] | done |].
    rewrite Hd, Hc, Hp, Hf. simpl.
    split_and!; [by apply prefix_app_r | lia | lia | done | done | done].
Qed.

Lemma log_append_only_witness :
  let vd := state_after (script_run sample_fs None "photos" None "t0") in
  let vd' := state_after
               (script_run sample_fs (Some vd) "photos" (Some ButtonNo) "t1") in
  decisions vd `prefix_of` decisions vd'
  ∧ current_pair vd ≤ current_pair vd' ≤ current_pair vd + 1.
Proof.
  intros vd vd'.
  destruct (log_append_only sample_fs vd "photos" (Some ButtonNo) "t1")
    as (Hpre & Hc & _).
  - right. vm_compute. reflexivity.
  - by split.
Defined.

(** X17.  A user event always settles: the runs it causes end with the
    script finished, never with a pending rerun, and no run reads past the
    list of pairs. *)
Theorem script_run_settles (fs : file_system) (st : option verification_data)
    (input : string) (clicked : option button) (now : string) :
  (script_run fs st input clicked now).2 = Finished
  ∧ ∀ e, (main fs st input clicked now).2 ≠ Crashed e.
Proof.
  split; [|intros e; apply main_no_crash].
  unfold script_run.
  pose proof (main_no_crash fs st input clicked now) as Hcrash.
  destruct (main fs st input clicked now) as [[vd v] [| |e]]; simpl in *.
  - done.
  - apply main_no_press.
  - by destruct (Hcrash e).
Qed.

(** X18.  A run with the path of a folder that does not exist shows the
    message for it and takes no decision; when the path is not the one of
    the session, the session has been reset before: the cursor is at 0 and
    the log is empty. *)
Theorem missing_folder_run (fs : file_system) (vd : verification_data)
    (input : string) (clicked : option button) (now : string) :
  truthy input = true → path_exists fs input = false →
  ∃ vd', script_run fs (Some vd) input clicked now
         = (vd', ViewFolderMissing, Finished)
         ∧ (folder_path vd = Some input → vd' = vd)
         ∧ (folder_path vd ≠ Some input →
            current_pair vd' = 0 ∧ decisions vd' = []
            ∧ image_pairs vd' = get_image_pairs fs input
            ∧ folder_path vd' = Some input).
Proof.
  intros Ht He. unfold script_run, main.
  change (default initial_data (Some vd)) with vd.
  rewrite Ht, He. cbn [negb andb].
  case_bool_decide as Hf; cbn [negb].
  - exists vd. split_and!; [done | done | congruence].
  - eexists. split_and!; [done | congruence | done].
Qed.

Lemma missing_folder_run_witness :
  let vd := run_presses sample_fs "photos"
              (state_after (script_run sample_fs None "photos" None "t0"))
              [(ButtonYes, "t1")] in
  ∃ vd', script_run sample_fs (Some vd) "photo" None "t2"
         = (vd', ViewFolderMissing, Finished)
         ∧ decisions vd' = [].
Proof.
  intros vd.
  destruct (missing_folder_run sample_fs vd "photo" None "t2" eq_refl eq_refl)
    as (vd' & Hrun & _ & Hreset).
  exists vd'. split; [exact Hrun|].
  destruct Hreset as (_ & Hd & _); [|exact Hd].
  vm_compute. discriminate.
Defined.

(** X19.  After a press on a shown pair the page shows the next pair, one
    position further, or, after the last pair, the completion message with
    the log including the new record. *)
Theorem press_shows_next (fs : file_system) (vd : verification_data)
    (folder : string) (b : button) (now : string) (p : image_pair) :
  truthy folder = true → folder_path vd = Some folder →
  path_exists fs folder = true →
  image_pairs vd !! current_pair vd = Some p →
  (script_run fs (Some vd) folder (Some b) now).1.2 =
  match image_pairs vd !! (current_pair vd + 1) with
  | Some next =>
      ViewPair next (current_pair vd + 2) (length (image_pairs vd))
  | None => ViewAllVerified (decisions vd ++ [record_of p (b, now)])
  end.
Proof.
  intros Ht Hf He Hp.
  assert (Hlt : current_pair vd < length (image_pairs vd))
    by (by eapply lookup_lt_Some).
  assert (Hne : image_pairs vd ≠ [])
    by (intros Hnil; rewrite Hnil in Hlt; simpl in Hlt; lia).
  unfold script_run. rewrite main_same_folder by done.
  destruct (Nat.leb_spec (length (image_pairs vd)) (current_pair vd)); [lia|].
  rewrite Hp. cbv beta iota zeta.
  rewrite main_same_folder by done.
  cbn [record_decision image_pairs current_pair decisions].
  destruct (image_pairs vd !! (current_pair vd + 1)) as [next|] eqn:Hnext.
  - apply lookup_lt_Some in Hnext as Hlt'.
    destruct (Nat.leb_spec (length (image_pairs vd)) (current_pair vd + 1));
      [lia|]. simpl. by rewrite <- Nat.add_assoc.
  - apply lookup_ge_None in Hnext.
    by destruct (Nat.leb_spec (length (image_pairs vd)) (current_pair vd + 1));
      [|lia].
Qed.

Lemma press_shows_next_witness :
  let vd := state_after (script_run sample_fs None "photos" None "t0") in
  (script_run sample_fs (Some vd) "photos" (Some ButtonYes) "t1").1.2
  = ViewPair {| id := "30"; original := "photos/30_original.png";
                proof := "photos/30_proof.png" |} 2 2.
Proof.
  intros vd.
  exact (press_shows_next sample_fs vd "photos" ButtonYes "t1"
           {| id := "12"; original := "photos/12_original.jpg";
              proof := "photos/12_proof.PNG" |}
           eq_refl eq_refl eq_refl eq_refl).
Defined.



End SessionExtras.
